(** * CrossRule: detection, parsing and conversion of AI-editor rule files

    A shallow embedding of the TypeScript sources
    - [src/utils/index.ts]          (module [Utils]),
    - [src/types/index.ts]          (module [Types]),
    - [src/parsers/index.ts]        (module [Parsers]),
    - [src/converters/index.ts]     (module [Converters]),
    - [src/converters/universal.ts] (module [Universal]),
    followed by the properties established about them.

    Conventions.  A JavaScript string is a [string]: a sequence of code
    units below 256 (the Latin-1 range).  A thrown exception is the [Throw]
    case of [Result], carrying the message of the [Error] object.  Node's
    [path], [fs], gray-matter, js-yaml and fast-glob are external to the
    repository: they appear as fields of the records [Host] (pure
    libraries), [Project] (a read-only snapshot of the scanned tree) and
    [Disk] (the mutable output tree). *)

From Stdlib Require Import Ascii NArith ZArith Sorting.Sorted Sorting.Permutation.
From stdpp Require Import base option list gmap strings.

(** ** JavaScript string primitives *)

Module Js.

Definition code (c : ascii) : N := N_of_ascii c.

Definition between (lo hi : N) (c : ascii) : bool :=
  ((lo <=? code c) && (code c <=? hi))%N.

(** [String.prototype.toLowerCase] on one code unit below 256: A-Z and the
    Latin-1 capitals U+00C0..U+00DE except U+00D7 move up by 32. *)
Definition lower (c : ascii) : ascii :=
  if between 65 90 c || between 192 214 c || between 216 222 c
  then ascii_of_N (code c + 32) else c.

Fixpoint toLowerCase (s : string) : string :=
  match s with
  | EmptyString => EmptyString
  | String c s' => String (lower c) (toLowerCase s')
  end.

(** The character class [[a-z0-9]]. *)
Definition lowerAlnum (c : ascii) : bool :=
  between 97 122 c || between 48 57 c.

(** The character class [[a-zA-Z]]. *)
Definition letter (c : ascii) : bool :=
  between 97 122 c || between 65 90 c.

(** [s.replace(/[^a-z0-9]/g, '-')]: every code unit outside the class
    becomes one hyphen. *)
Fixpoint replaceEachNonAlnum (s : string) : string :=
  match s with
  | EmptyString => EmptyString
  | String c s' =>
      String (if lowerAlnum c then c else "-"%char) (replaceEachNonAlnum s')
  end.

(** [s.replace(/[^a-z0-9]+/g, '-')]: every maximal run of code units
    outside the class becomes one hyphen.  [inRun] tells that the
    previous code unit already belongs to the current run. *)
Fixpoint replaceRunsGo (inRun : bool) (s : string) : string :=
  match s with
  | EmptyString => EmptyString
  | String c s' =>
      if lowerAlnum c then String c (replaceRunsGo false s')
      else if inRun then replaceRunsGo true s'
      else String "-"%char (replaceRunsGo true s')
  end.

Definition replaceRunsNonAlnum (s : string) : string := replaceRunsGo false s.

Definition startsWith (s p : string) : bool := String.prefix p s.

Fixpoint includes (s sub : string) : bool :=
  String.prefix sub s ||
  match s with
  | EmptyString => false
  | String _ s' => includes s' sub
  end.

(** White space of [String.prototype.trim] and of the regex class [\s],
    below 256: TAB, LF, VT, FF, CR, SPACE, NBSP. *)
Definition isSpace (c : ascii) : bool :=
  between 9 13 c || (code c =? 32)%N || (code c =? 160)%N.

(** Line terminators below 256: LF and CR. *)
Definition isLineTerminator (c : ascii) : bool :=
  (code c =? 10)%N || (code c =? 13)%N.

Fixpoint trimStart (s : string) : string :=
  match s with
  | EmptyString => EmptyString
  | String c s' => if isSpace c then trimStart s' else s
  end.

Definition trim (s : string) : string :=
  String.rev (trimStart (String.rev (trimStart s))).

(** [s || d] on strings: the empty string is falsy. *)
Definition orElse (s d : string) : string :=
  match s with EmptyString => d | _ => s end.

Definition truthy (s : string) : bool :=
  match s with EmptyString => false | _ => true end.

(** [l.join(sep)]. *)
Fixpoint join (sep : string) (l : list string) : string :=
  match l with
  | [] => ""
  | [x] => x
  | x :: rest => x +:+ sep +:+ join sep rest
  end.

(** [s.split('/').pop()]: the text after the last slash. *)
Fixpoint lastSegmentGo (acc s : string) : string :=
  match s with
  | EmptyString => String.rev acc
  | String c s' =>
      if (code c =? 47)%N then lastSegmentGo "" s'
      else lastSegmentGo (String c acc) s'
  end.

Definition lastSegment (s : string) : string := lastSegmentGo "" s.

Fixpoint allChars (p : ascii → bool) (s : string) : bool :=
  match s with
  | EmptyString => true
  | String c s' => p c && allChars p s'
  end.

(** [s.replace(/\.[^/.]+$/, '')]: the leftmost dot followed, up to the
    end of the string, by one or more code units other than slash and
    dot is removed together with what follows it. *)
Fixpoint stripExtension (s : string) : string :=
  match s with
  | EmptyString => EmptyString
  | String c s' =>
      if (code c =? 46)%N && truthy s' &&
         allChars (λ d, negb ((code d =? 47)%N || (code d =? 46)%N)) s'
      then EmptyString
      else String c (stripExtension s')
  end.

(** [Array.prototype.sort(compare)].  The sort is stable, so for a
    consistent comparator its result is the one of a stable insertion:
    [x] goes before the first [y] with [compare x y <= 0]. *)
Fixpoint insertBy {A : Type} (compare : A → A → Z) (x : A) (l : list A)
    : list A :=
  match l with
  | [] => [x]
  | y :: l' =>
      if (compare x y <=? 0)%Z then x :: y :: l'
      else y :: insertBy compare x l'
  end.

Definition sort {A : Type} (compare : A → A → Z) (l : list A) : list A :=
  foldr (insertBy compare) [] l.

End Js.

(** ** Results of code that may throw *)

Inductive Result (A : Type) : Type :=
| Ok (a : A)
| Throw (message : string).
Arguments Ok {A} a.
Arguments Throw {A} message.

Global Instance Result_ret : MRet Result := λ A a, Ok a.

Global Instance Result_bind : MBind Result := λ A B f m,
  match m with
  | Ok a => f a
  | Throw e => Throw e
  end.

(** The line feed, written [\n] in the sources. *)
Definition nl : string := String "010"%char EmptyString.

(** [`${error}`] for a caught [Error] whose message is [m]. *)
Definition showError (m : string) : string := "Error: " +:+ m.

(** ** [src/types/index.ts] *)

Module Types.

Inductive EditorType : Type :=
| cursor | windsurf | cline | vscode | codex | claude_code | qoder | trae
| qwencoder.

(** The string each [EditorType] value is. *)
Definition editorString (e : EditorType) : string :=
  match e with
  | cursor => "cursor" | windsurf => "windsurf" | cline => "cline"
  | vscode => "vscode" | codex => "codex" | claude_code => "claude-code"
  | qoder => "qoder" | trae => "trae" | qwencoder => "qwencoder"
  end.

Inductive RuleType : Type :=
| always | auto_attached | agent_requested | manual | model_decision
| glob_pattern | specific_files.

Inductive UniversalRuleType : Type :=
| u_always | u_pattern | u_manual | u_ai_decision.

Global Instance EditorType_eq_dec : EqDecision EditorType.
Proof. solve_decision. Defined.

Global Instance RuleType_eq_dec : EqDecision RuleType.
Proof. solve_decision. Defined.

(** The [metadata] bag the parser fills in: [{filePath, size}] for a whole
    file, [{filePath, section}] for a section of a shared file. *)
Inductive Metadata : Type :=
| FileMeta (filePath : string) (size : nat)
| SectionMeta (filePath : string) (section : string).

Record Rule : Type := mkRule {
  name : string;
  description : option string;
  content : string;
  type : RuleType;
  patterns : option (list string);
  metadata : option Metadata;
  source : EditorType
}.

Record DetectionResult : Type := mkDetectionResult {
  editor : EditorType;
  rules : list Rule;
  location : string;
  ruleCount : nat
}.

Record UniversalRule : Type := mkUniversalRule {
  u_name : string;
  u_type : UniversalRuleType;
  u_content : string;
  u_patterns : option (list string);
  u_context : option string;
  u_description : option string
}.

Record EditorConfig : Type := mkEditorConfig {
  cfg_name : string;
  displayName : string;
  fileFormats : list string;
  locations : list string;
  legacyLocations : option (list string);
  supportedRuleTypes : list RuleType;
  hasGlobSupport : bool;
  hasYamlFrontmatter : bool;
  maxFileSize : option N;
  maxTotalSize : option N;
  aliasDisplayNames : option (list string)
}.

Record ConversionResult : Type := mkConversionResult {
  success : bool;
  converted : nat;
  skipped : nat;
  errors : list string;
  outputFiles : list string
}.

End Types.
Export Types.

(** ** [src/utils/index.ts] *)

Module Utils.

Definition EDITOR_CONFIGS (e : EditorType) : EditorConfig :=
  match e with
  | cursor =>
      mkEditorConfig "cursor" "Cursor" [".mdc"] [".cursor/rules/"]
        (Some [".cursorrules"])
        [always; auto_attached; agent_requested; manual]
        true true (Some (500 * 80)%N) None None
  | windsurf =>
      mkEditorConfig "windsurf" "Windsurf" [".md"] [".windsurf/rules/"]
        (Some [".windsurfrules"])
        [manual; model_decision; glob_pattern; always]
        true true (Some 12000%N) (Some 12000%N) None
  | cline =>
      mkEditorConfig "cline" "Cline" [".md"] [".clinerules/"; ".clinerules"]
        None [always; manual] false false None None None
  | vscode =>
      mkEditorConfig "vscode" "VSCode" [".md"; ".json"]
        [".github/instructions/"; ".github/prompts/"; "src/*/instructions/"]
        None [glob_pattern; always] true true None None None
  | codex =>
      mkEditorConfig "codex" "Codex CLI" [".md"] ["AGENTS.md"]
        None [always] false false None None
        (Some ["OpenCode"; "VSCode Agents"; "AGENTS.md Compatible"])
  | claude_code =>
      mkEditorConfig "claude-code" "Claude Code" [".md"] ["CLAUDE.md"]
        None [always; manual] false false None None None
  | qoder =>
      mkEditorConfig "qoder" "Qoder" [".md"] [".qoder/rules/"]
        None [manual; model_decision; always; specific_files]
        true true None (Some 100000%N) None
  | trae =>
      mkEditorConfig "trae" "Trae" [".md"] [".trae/rules/"]
        (Some [".cursorrules"]) [always; glob_pattern; manual]
        true true None None None
  | qwencoder =>
      mkEditorConfig "qwencoder" "QwenCoder" [".md"] ["QWEN.md"]
        None [always] false false None None None
  end.

(** [Object.keys(EDITOR_CONFIGS)]: the keys in insertion order. *)
Definition editorKeys : list EditorType :=
  [cursor; windsurf; cline; vscode; codex; claude_code; qoder; trae;
   qwencoder].

(** [Object.entries(EDITOR_CONFIGS)]. *)
Definition editorEntries : list (EditorType * EditorConfig) :=
  (λ e, (e, EDITOR_CONFIGS e)) <$> editorKeys.

Definition getDisplayNamesForEditor (editor : EditorType) : list string :=
  let config := EDITOR_CONFIGS editor in
  match aliasDisplayNames config with
  | Some aliases => displayName config :: aliases
  | None => [displayName config]
  end.

(** [names.includes(name)] on an array of strings. *)
Definition arrayIncludes (names : list string) (n : string) : bool :=
  bool_decide (n ∈ names).

Definition getEditorDisplayNames : list string :=
  foldl (λ names editor,
           foldl (λ names n,
                    if arrayIncludes names n then names else names ++ [n])
                 names (getDisplayNamesForEditor editor))
        [] editorKeys.

Fixpoint findByDisplayName (entries : list (EditorType * EditorConfig))
    (shown : string) : option EditorType :=
  match entries with
  | [] => None
  | (editorType, config) :: rest =>
      if bool_decide (displayName config = shown) then Some editorType
      else
        match aliasDisplayNames config with
        | Some aliases =>
            if arrayIncludes aliases shown then Some editorType
            else findByDisplayName rest shown
        | None => findByDisplayName rest shown
        end
  end.

Definition getEditorByDisplayName (shown : string) : option EditorType :=
  findByDisplayName editorEntries shown.
Global Arguments getEditorByDisplayName : simpl never.

End Utils.
Export Utils.

(** ** External collaborators *)

(** The YAML front matter gray-matter hands back ([parsed.data]), with the
    fields the parser reads, at the types the interfaces [CursorRule],
    [WindsurfRule], [TraeRule] declare for them.  A glob field may be a
    single string or a list of strings.  [None] is an absent key. *)
Inductive GlobField : Type :=
| GlobString (s : string)
| GlobList (l : list string).

Record Frontmatter : Type := mkFrontmatter {
  fm_description : option string;
  fm_globs : option GlobField;
  fm_alwaysApply : option bool;
  fm_filesToApplyRule : option string;
  fm_trigger : option string;
  fm_glob : option GlobField
}.

(** The result [{content, data}] of [matter(text)]. *)
Record Parsed : Type := mkParsed {
  parsed_content : string;
  parsed_data : Frontmatter
}.

(** A front matter object built by a converter: keys in insertion order. *)
Inductive YamlValue : Type :=
| YString (s : string)
| YBool (b : bool)
| YList (l : list string).

Definition YamlObject : Type := list (string * YamlValue).

(** Pure library functions: Node's [path], gray-matter and js-yaml.
    [matter] answers [None] where gray-matter throws. *)
Record Host : Type := mkHost {
  path_resolve : string → string → string;
  path_join : string → string → string;
  matter : string → option Parsed;
  matter_stringify : string → YamlObject → string;
  yaml_dump : YamlObject → string
}.

Inductive Stat : Type := IsFile | IsDirectory | IsOther.

(** The scanned tree, as the synchronous [fs] calls and fast-glob see it.
    [stat p = None]: nothing at [p] ([existsSync] is false, [statSync]
    throws).  [readFile p = Throw m]: [readFileSync] throws an error with
    message [m]. *)
Record Project : Type := mkProject {
  stat : string → option Stat;
  readFile : string → Result string;
  glob : list string → list string
}.

Definition existsSync (proj : Project) (p : string) : bool :=
  bool_decide (is_Some (stat proj p)).

(** ** [src/parsers/index.ts] *)

Module Parsers.

Fixpoint takeWhile (p : ascii → bool) (s : string) : string :=
  match s with
  | EmptyString => EmptyString
  | String c s' => if p c then String c (takeWhile p s') else EmptyString
  end.

Fixpoint stripPrefix (p s : string) : option string :=
  match p, s with
  | EmptyString, _ => Some s
  | String a p', String b s' =>
      if bool_decide (a = b) then stripPrefix p' s' else None
  | String _ _, EmptyString => None
  end.

Definition notTerminator (c : ascii) : bool := negb (Js.isLineTerminator c).

(** *** The section delimiter [/^---- (.+?) ----$/gm] *)

(** A whole line matches when it is [---- ] + name + [ ----] with a
    non-empty name; the capture is the name. *)
Definition delimiterName (line : string) : option string :=
  r ← stripPrefix "---- " line;
  m ← stripPrefix "---- " (String.rev r);
  if Js.truthy m then Some (String.rev m) else None.

(** [content.split(/^---- (.+?) ----$/gm)]: the pieces between the
    matching lines, each followed by the captured name.  [skip] counts
    the code units of a matched line still to pass over, [atStart] tells
    that the previous code unit is a line terminator (or that this is the
    start of the text) and [piece] holds the current piece reversed. *)
Fixpoint splitSectionsGo (skip : nat) (atStart : bool) (piece : string)
    (s : string) : list string :=
  match s with
  | EmptyString => [String.rev piece]
  | String c s' =>
      match skip with
      | S k => splitSectionsGo k false piece s'
      | O =>
          match (if atStart then delimiterName (takeWhile notTerminator s)
                 else None) with
          | Some n =>
              String.rev piece :: n ::
              splitSectionsGo
                (String.length (takeWhile notTerminator s) - 1) false "" s'
          | None =>
              splitSectionsGo 0 (Js.isLineTerminator c) (String c piece) s'
          end
      end
  end.

Definition splitSections (content : string) : list string :=
  splitSectionsGo 0 true "" content.

(** *** The title [/^#\s+(.+)$/m] *)

(** On text that is white space up to its end: the capture that starts
    at the last code unit other than a line terminator, when
    backtracking [\s+] gives code units back to [(.+)]. *)
Fixpoint lastTitleStart (t : string) : option string :=
  match t with
  | EmptyString => None
  | String c t' =>
      match lastTitleStart t' with
      | Some g => Some g
      | None =>
          if Js.isLineTerminator c then None
          else Some (takeWhile notTerminator t)
      end
  end.

Fixpoint dropWhile (p : ascii → bool) (s : string) : string :=
  match s with
  | EmptyString => EmptyString
  | String c s' => if p c then dropWhile p s' else s
  end.

(** The capture for a match that starts at a [#] followed by [t]. *)
Definition titleAfterHash (t : string) : option string :=
  match t with
  | EmptyString => None
  | String c t' =>
      if Js.isSpace c then
        match dropWhile Js.isSpace t with
        | EmptyString => lastTitleStart t'
        | rest => Some (takeWhile notTerminator rest)
        end
      else None
  end.

Fixpoint titleMatchGo (atStart : bool) (s : string) : option string :=
  match s with
  | EmptyString => None
  | String c s' =>
      match (if atStart && bool_decide (c = "#"%char)
             then titleAfterHash s' else None) with
      | Some g => Some g
      | None => titleMatchGo (Js.isLineTerminator c) s'
      end
  end.

(** [text.match(/^#\s+(.+)$/m)], giving the first capture. *)
Definition titleMatch (text : string) : option string :=
  titleMatchGo true text.

(** *** The file patterns
    [/\*\.[a-zA-Z]+|\*\*\/\*\.[a-zA-Z]+|src\/\*+/g] *)

Definition matchAlternative (lit : string) (class : ascii → bool)
    (s : string) : option string :=
  r ← stripPrefix lit s;
  if Js.truthy (takeWhile class r) then Some (lit +:+ takeWhile class r)
  else None.

Definition isStar (c : ascii) : bool := bool_decide (c = "*"%char).

(** The match that starts at the head of [s], alternatives in order. *)
Definition patternAt (s : string) : option string :=
  match matchAlternative "*." Js.letter s with
  | Some m => Some m
  | None =>
      match matchAlternative "**/*." Js.letter s with
      | Some m => Some m
      | None => matchAlternative "src/" isStar s
      end
  end.

Fixpoint patternMatchesGo (skip : nat) (s : string) : list string :=
  match s with
  | EmptyString => []
  | String c s' =>
      match skip with
      | S k => patternMatchesGo k s'
      | O =>
          match patternAt s with
          | Some m => m :: patternMatchesGo (String.length m - 1) s'
          | None => patternMatchesGo 0 s'
          end
      end
  end.

(** [content.match(/.../g)]: [None] is JavaScript's [null]. *)
Definition patternMatches (content : string) : option (list string) :=
  match patternMatchesGo 0 content with
  | [] => None
  | l => Some l
  end.

(** *** Parsing one rule *)

Definition truthyGlob (g : option GlobField) : bool :=
  match g with
  | Some (GlobString s) => Js.truthy s
  | Some (GlobList _) => true
  | None => false
  end.

(** [Array.isArray(g) ? g : [g]], and [typeof g === 'string' ? [g] : g]. *)
Definition globAsList (g : option GlobField) : list string :=
  match g with
  | Some (GlobString s) => [s]
  | Some (GlobList l) => l
  | None => []
  end.

(** The local variables of [parseRuleContent]. *)
Record Locals : Type := mkLocals {
  parsedContent : string;
  l_description : string;
  l_patterns : list string;
  ruleType : RuleType
}.

Definition setDescription (d : string) (st : Locals) : Locals :=
  mkLocals (parsedContent st) d (l_patterns st) (ruleType st).
Definition setPatterns (p : list string) (st : Locals) : Locals :=
  mkLocals (parsedContent st) (l_description st) p (ruleType st).
Definition setRuleType (t : RuleType) (st : Locals) : Locals :=
  mkLocals (parsedContent st) (l_description st) (l_patterns st) t.

(** The [switch (frontmatter.trigger)] of the Qoder case. *)
Definition qoderTrigger (trigger : string) (st : Locals) : Locals :=
  if bool_decide (trigger = "manual") then setRuleType manual st
  else if bool_decide (trigger = "model_decision")
       then setRuleType model_decision st
  else if bool_decide (trigger = "always_on") then setRuleType always st
  else if bool_decide (trigger = "glob") then setRuleType glob_pattern st
  else st.

(** The body of the [try] block once [matter(content)] has returned. *)
Definition readFrontmatter (editor : EditorType) (parsed : Parsed)
    (st : Locals) : Locals :=
  let frontmatter := parsed_data parsed in
  let st := mkLocals (parsed_content parsed) (l_description st)
                     (l_patterns st) (ruleType st) in
  let st :=
    match fm_description frontmatter with
    | Some d => if Js.truthy d then setDescription d st else st
    | None => st
    end in
  let st :=
    if truthyGlob (fm_globs frontmatter)
    then setRuleType auto_attached
           (setPatterns (globAsList (fm_globs frontmatter)) st)
    else st in
  let st :=
    if bool_decide (fm_alwaysApply frontmatter = Some true)
    then setRuleType always st else st in
  match editor with
  | windsurf =>
      match fm_filesToApplyRule frontmatter with
      | Some f =>
          if Js.truthy f then setRuleType glob_pattern (setPatterns [f] st)
          else st
      | None => st
      end
  | qoder =>
      let st :=
        match fm_trigger frontmatter with
        | Some t => if Js.truthy t then qoderTrigger t st else st
        | None => st
        end in
      if truthyGlob (fm_glob frontmatter)
      then setPatterns (globAsList (fm_glob frontmatter)) st
      else st
  | _ => st
  end.

(** The second, editor-specific [switch]. *)
Definition editorSpecific (editor : EditorType) (content filePath : string)
    (st : Locals) : Locals :=
  match editor with
  | cline =>
      match titleMatch (parsedContent st) with
      | Some title =>
          if negb (Js.truthy (l_description st))
          then setDescription title st else st
      | None => st
      end
  | codex =>
      if Js.includes filePath "AGENTS.md"
      then setDescription "Project Agent Rules" st else st
  | claude_code =>
      if Js.includes filePath "CLAUDE.md"
      then setDescription "Claude Code Instructions" st else st
  | qoder =>
      if Js.includes content "*." || Js.includes content "src/" then
        let st := setRuleType specific_files st in
        match patternMatches content with
        | Some found => setPatterns found st
        | None => st
        end
      else st
  | _ => st
  end.

Section WithHost.

Context (host : Host).

Definition parseRuleContent (editor : EditorType)
    (name content filePath : string) : Rule :=
  let config := EDITOR_CONFIGS editor in
  let st := mkLocals content "" [] always in
  let st :=
    if hasYamlFrontmatter config then
      match matter host content with
      | Some parsed => readFrontmatter editor parsed st
      | None => st
      end
    else st in
  let st := editorSpecific editor content filePath st in
  mkRule name (Some (l_description st)) (Js.trim (parsedContent st))
         (ruleType st)
         (match l_patterns st with [] => None | p => Some p end)
         (Some (FileMeta filePath (String.length content)))
         editor.

(** [filePath.split('/').pop()?.replace(/\.[^/.]+$/, '') || 'unnamed']. *)
Definition fileNameOf (filePath : string) : string :=
  Js.orElse (Js.stripExtension (Js.lastSegment filePath)) "unnamed".

Context (proj : Project).

(** [None] is the [null] returned from the [catch] block. *)
Definition parseRuleFile (editor : EditorType) (filePath : string)
    : option Rule :=
  match readFile proj filePath with
  | Ok content =>
      Some (parseRuleContent editor (fileNameOf filePath) content filePath)
  | Throw _ => None
  end.

(** The loop [for (let i = 1; i < sections.length; i += 2)] over the
    array from its index 1 on. *)
Fixpoint sectionRules (editor : EditorType) (filePath : string)
    (sections : list string) : list Rule :=
  match sections with
  | n :: c :: rest =>
      let sectionName := Js.trim n in
      let sectionContent := Js.trim c in
      let tail := sectionRules editor filePath rest in
      if Js.truthy sectionName && Js.truthy sectionContent then
        let sourceDesc :=
          if bool_decide (editor = codex) then "Codex CLI"
          else "QwenCoder" in
        mkRule sectionName
               (Some (sectionName +:+ " rules from " +:+ sourceDesc))
               sectionContent always None
               (Some (SectionMeta filePath sectionName)) editor
        :: tail
      else tail
  | _ => []
  end.

Definition parseSingleFileWithSections (editor : EditorType)
    (filePath : string) : Result (list Rule) :=
  content ← readFile proj filePath;
  if bool_decide (editor = codex) || bool_decide (editor = qwencoder)
  then Ok (sectionRules editor filePath (tail (splitSections content)))
  else Ok [parseRuleContent editor (fileNameOf filePath) content
                            filePath].

Definition isSingleFileEditor (editor : EditorType) : bool :=
  bool_decide (editor = codex) || bool_decide (editor = claude_code) ||
  bool_decide (editor = qwencoder).

Definition parseRulesFromLocation (editor : EditorType) (location : string)
    : Result (list Rule) :=
  match stat proj location with
  | None => Throw ("ENOENT: no such file or directory, stat '" +:+
                   location +:+ "'")
  | Some IsFile =>
      if isSingleFileEditor editor
      then parseSingleFileWithSections editor location
      else Ok (option_list (parseRuleFile editor location))
  | Some IsDirectory =>
      let config := EDITOR_CONFIGS editor in
      let patterns :=
        (λ ext, location +:+ "/**/*" +:+ ext) <$> fileFormats config in
      let files := glob proj patterns in
      Ok (omap (parseRuleFile editor) files)
  | Some IsOther => Ok []
  end.

(** One of the two loops of [detectRulesForEditor], over [locs]; the
    pair holds [rules] and [detectedLocation]. *)
Fixpoint scanLocations (editor : EditorType) (projectPath : string)
    (locs : list string) (acc : list Rule * string)
    : Result (list Rule * string) :=
  match locs with
  | [] => Ok acc
  | location :: rest =>
      let fullPath := path_resolve host projectPath location in
      if existsSync proj fullPath then
        foundRules ← parseRulesFromLocation editor fullPath;
        scanLocations editor projectPath rest
          (acc.1 ++ foundRules,
           if bool_decide (0 < length foundRules) &&
              negb (Js.truthy acc.2)
           then fullPath else acc.2)
      else scanLocations editor projectPath rest acc
  end.

Definition detectRulesForEditor (editor : EditorType)
    (projectPath : string) : Result DetectionResult :=
  let config := EDITOR_CONFIGS editor in
  acc ← scanLocations editor projectPath (locations config) ([], "");
  acc ← match legacyLocations config with
        | Some legacy => scanLocations editor projectPath legacy acc
        | None => Ok acc
        end;
  Ok (mkDetectionResult editor acc.1 acc.2 (length acc.1)).

Fixpoint detectEach (projectPath : string) (editors : list EditorType)
    (results : list DetectionResult) : Result (list DetectionResult) :=
  match editors with
  | [] => Ok results
  | editorType :: rest =>
      detected ← detectRulesForEditor editorType projectPath;
      detectEach projectPath rest
        (if bool_decide (0 < ruleCount detected)
         then results ++ [detected] else results)
  end.

Definition byRuleCountDesc (a b : DetectionResult) : Z :=
  (Z.of_nat (ruleCount b) - Z.of_nat (ruleCount a))%Z.

Definition detectAllRules (projectPath : string)
    : Result (list DetectionResult) :=
  results ← detectEach projectPath editorKeys [];
  Ok (Js.sort byRuleCountDesc results).

End WithHost.

End Parsers.

(** ** The output tree *)

(** The files and directories the converters see and change.  [writeError p
    = Some m]: writing [p] throws an error with message [m]; [mkdirError]
    likewise for creating a directory.  [writes] logs the paths of the
    completed writes, oldest first. *)
Record Disk : Type := mkDisk {
  files : gmap string string;
  dirs : gset string;
  writeError : string → option string;
  mkdirError : string → option string;
  writes : list string
}.

Module Fs.

(** [existsSync(p)], and [fs.access(p)] succeeding. *)
Definition existsSync (d : Disk) (p : string) : bool :=
  bool_decide (p ∈ dirs d) || bool_decide (is_Some (files d !! p)).

(** [mkdirSync(p, {recursive: true})] and [fs.mkdir]. *)
Definition mkdir (p : string) (d : Disk) : Result unit * Disk :=
  match mkdirError d p with
  | Some m => (Throw m, d)
  | None =>
      (Ok (), mkDisk (files d) ({[p]} ∪ dirs d) (writeError d)
                     (mkdirError d) (writes d))
  end.

(** [writeFileSync(p, text, 'utf-8')] and [fs.writeFile]. *)
Definition writeFile (p text : string) (d : Disk) : Result unit * Disk :=
  match writeError d p with
  | Some m => (Throw m, d)
  | None =>
      (Ok (), mkDisk (<[p := text]> (files d)) (dirs d) (writeError d)
                     (mkdirError d) (writes d ++ [p]))
  end.

End Fs.

(** ** [src/converters/index.ts] *)

Module Converters.

Definition describe (rule : Rule) (fallback : string) : string :=
  Js.orElse (default "" (description rule)) fallback.

Definition isPatternType (t : RuleType) : bool :=
  match t with
  | auto_attached | glob_pattern | specific_files => true
  | _ => false
  end.

Definition mapRuleTypeToQoderTrigger (ruleType : RuleType) : string :=
  match ruleType with
  | manual => "manual"
  | model_decision | agent_requested => "model_decision"
  | always => "always_on"
  | auto_attached | glob_pattern | specific_files => "glob"
  end.

Section WithHost.

Context (host : Host).

Definition convertToCursor (rule : Rule) : string :=
  let frontmatter :=
    [("description",
      YString (describe rule
                 ("Converted from " +:+ editorString (source rule))))] in
  let frontmatter :=
    match type rule with
    | always => frontmatter ++ [("alwaysApply", YBool true)]
    | auto_attached | glob_pattern | specific_files =>
        match patterns rule with
        | Some p => frontmatter ++ [("globs", YList p)]
        | None => frontmatter
        end
    | _ => frontmatter
    end in
  matter_stringify host (content rule) frontmatter.

Definition convertToWindsurf (rule : Rule) : string :=
  let frontmatter :=
    [("description",
      YString (describe rule
                 ("Converted from " +:+ editorString (source rule))))] in
  let frontmatter :=
    match type rule with
    | always => frontmatter ++ [("alwaysApply", YBool true)]
    | auto_attached | glob_pattern | specific_files =>
        match patterns rule with
        | Some p => frontmatter ++ [("globs", YString (Js.join "," p))]
        | None => frontmatter
        end
    | _ => frontmatter
    end in
  matter_stringify host (content rule) frontmatter.

Definition convertToCline (rule : Rule) : string :=
  "# " +:+ describe rule (name rule) +:+ nl +:+ nl +:+
  "*Converted from " +:+ editorString (source rule) +:+ " rules*" +:+
  nl +:+ nl +:+ content rule.

Definition convertToVSCode (rule : Rule) : string :=
  let frontmatter :=
    [("description",
      YString (describe rule
                 ("Converted from " +:+ editorString (source rule))))] in
  let frontmatter :=
    match patterns rule with
    | Some p => frontmatter ++ [("applyTo", YString (Js.join "," p))]
    | None => frontmatter
    end in
  matter_stringify host (content rule) frontmatter.

Definition convertToCodex (rule : Rule) : string :=
  "# " +:+ describe rule (name rule) +:+ nl +:+ nl +:+
  "*Converted from " +:+ editorString (source rule) +:+ " rules*" +:+
  nl +:+ nl +:+ content rule.

Definition convertToClaudeCode (rule : Rule) : string :=
  "# " +:+ describe rule (name rule) +:+ nl +:+ nl +:+ content rule.

Definition convertToQoder (rule : Rule) : string :=
  let frontmatter :=
    [("trigger", YString (mapRuleTypeToQoderTrigger (type rule)));
     ("description",
      YString (describe rule
                 ("Converted from " +:+ editorString (source rule))))] in
  let frontmatter :=
    if bool_decide (type rule = always)
    then frontmatter ++ [("alwaysApply", YBool true)] else frontmatter in
  let frontmatter :=
    match patterns rule with
    | Some p =>
        if isPatternType (type rule) && bool_decide (0 < length p)
        then frontmatter ++
             [("glob", YString (match p with
                                | [one] => one
                                | _ => Js.join "," p
                                end))]
        else frontmatter
    | None => frontmatter
    end in
  matter_stringify host (content rule) frontmatter.

Definition convertToTrae (rule : Rule) : string :=
  let frontmatter :=
    [("description",
      YString (describe rule
                 ("Converted from " +:+ editorString (source rule))))] in
  let frontmatter :=
    if bool_decide (type rule = always)
    then frontmatter ++ [("alwaysApply", YBool true)] else frontmatter in
  let frontmatter :=
    match patterns rule with
    | Some p => frontmatter ++ [("globs", YString (Js.join "," p))]
    | None => frontmatter
    end in
  matter_stringify host (content rule) frontmatter.

Definition convertToQwenCoder (rule : Rule) : string :=
  "# " +:+ describe rule (name rule) +:+ nl +:+ nl +:+
  "*Converted from " +:+ editorString (source rule) +:+ " rules*" +:+
  nl +:+ nl +:+ content rule.

Definition convertRuleContent (rule : Rule) (targetEditor : EditorType)
    : string :=
  match targetEditor with
  | cursor => convertToCursor rule
  | windsurf => convertToWindsurf rule
  | cline => convertToCline rule
  | vscode => convertToVSCode rule
  | codex => convertToCodex rule
  | claude_code => convertToClaudeCode rule
  | qoder => convertToQoder rule
  | trae => convertToTrae rule
  | qwencoder => convertToQwenCoder rule
  end.

(** [fileFormats[0]] inside a template string. *)
Definition generateFileName (rule : Rule) (targetEditor : EditorType)
    : string :=
  let config := EDITOR_CONFIGS targetEditor in
  let baseName := Js.replaceEachNonAlnum (Js.toLowerCase (name rule)) in
  let extension := default "undefined" (head (fileFormats config)) in
  baseName +:+ extension.

Definition singleFileHeader (targetEditor : EditorType) : string :=
  match targetEditor with
  | codex =>
      "# Project Agent Rules" +:+ nl +:+ nl +:+
      "*Converted rules from multiple sources*" +:+ nl +:+ nl
  | claude_code =>
      "# CLAUDE.md" +:+ nl +:+ nl +:+
      "This file provides guidance to Claude Code when working with code in this repository." +:+
      nl +:+ nl
  | qwencoder =>
      "# Project Context Rules" +:+ nl +:+ nl +:+
      "*AI coding assistant guidance*" +:+ nl +:+ nl
  | _ => ""
  end.

(** The text the loop of [convertToSingleFile] appends for [rules]:
    the last rule is the one not followed by a blank line. *)
Fixpoint singleFileSections (targetEditor : EditorType)
    (rules : list Rule) : string :=
  match rules with
  | [] => ""
  | rule :: rest =>
      (if bool_decide (targetEditor = codex) ||
          bool_decide (targetEditor = qwencoder)
       then "---- " +:+ name rule +:+ " ----" +:+ nl +:+ nl
       else "## " +:+ describe rule (name rule) +:+ nl +:+ nl) +:+
      content rule +:+
      (match rest with [] => "" | _ => nl +:+ nl end) +:+
      singleFileSections targetEditor rest
  end.

Definition convertToSingleFile (rules : list Rule)
    (targetEditor : EditorType) (basePath : string) (d : Disk)
    : Result (list string) * Disk :=
  let config := EDITOR_CONFIGS targetEditor in
  let fileName := default "" (head (locations config)) in
  let filePath := path_join host basePath (Js.orElse fileName "rules.md") in
  let text :=
    singleFileHeader targetEditor +:+
    singleFileSections targetEditor rules in
  match Fs.writeFile filePath text d with
  | (Ok _, d') => (Ok [filePath], d')
  | (Throw m, d') => (Throw m, d')
  end.

(** The loop of [convertToEditor] over [rules]; [outputFiles] holds the
    paths pushed so far. *)
Fixpoint writeEach (rules : list Rule) (targetEditor : EditorType)
    (outputDir : string) (outputFiles : list string) (d : Disk)
    : Result (list string) * Disk :=
  match rules with
  | [] => (Ok outputFiles, d)
  | rule :: rest =>
      let convertedContent := convertRuleContent rule targetEditor in
      let fileName := generateFileName rule targetEditor in
      let filePath := path_join host outputDir fileName in
      match Fs.writeFile filePath convertedContent d with
      | (Ok _, d') =>
          writeEach rest targetEditor outputDir
                    (outputFiles ++ [filePath]) d'
      | (Throw m, d') =>
          (Throw ("Failed to convert rule " +:+ name rule +:+ ": " +:+
                  showError m), d')
      end
  end.

Definition convertToEditor (rules : list Rule) (targetEditor : EditorType)
    (basePath : string) (d : Disk) : Result (list string) * Disk :=
  let config := EDITOR_CONFIGS targetEditor in
  if Parsers.isSingleFileEditor targetEditor
  then convertToSingleFile rules targetEditor basePath d
  else
    let outputDir :=
      path_join host basePath
                (Js.orElse (default "" (head (locations config))) ".") in
    match (if Fs.existsSync d outputDir then (Ok (), d)
           else Fs.mkdir outputDir d) with
    | (Throw m, d') => (Throw m, d')
    | (Ok _, d') => writeEach rules targetEditor outputDir [] d'
    end.

(** The loop of [convertRules] over the names still to process. *)
Fixpoint convertEach (sourceRules : list Rule) (targetEditors : list string)
    (outputPath : string) (result : ConversionResult) (d : Disk)
    : ConversionResult * Disk :=
  match targetEditors with
  | [] => (result, d)
  | editorName :: rest =>
      match getEditorByDisplayName editorName with
      | None =>
          convertEach sourceRules rest outputPath
            (mkConversionResult (success result) (converted result)
               (skipped result)
               (errors result ++ ["Unknown editor: " +:+ editorName])
               (outputFiles result))
            d
      | Some editorType =>
          match convertToEditor sourceRules editorType outputPath d with
          | (Ok written, d') =>
              convertEach sourceRules rest outputPath
                (mkConversionResult (success result)
                   (converted result + length written) (skipped result)
                   (errors result) (outputFiles result ++ written))
                d'
          | (Throw m, d') =>
              convertEach sourceRules rest outputPath
                (mkConversionResult false (converted result)
                   (skipped result)
                   (errors result ++
                    ["Failed to convert to " +:+ editorName +:+ ": " +:+
                     showError m])
                   (outputFiles result))
                d'
          end
      end
  end.

Definition convertRules (sourceRules : list Rule)
    (targetEditors : list string) (outputPath : string) (d : Disk)
    : ConversionResult * Disk :=
  convertEach sourceRules targetEditors outputPath
              (mkConversionResult true 0 0 [] []) d.

End WithHost.

End Converters.

(** ** [src/converters/universal.ts] *)

Module Universal.

Section WithHost.

Context (host : Host).

Definition ensureDirectoryExists (dirPath : string) (d : Disk)
    : Result unit * Disk :=
  if Fs.existsSync d dirPath then (Ok (), d) else Fs.mkdir dirPath d.

Definition convertToCursor (rule : UniversalRule) (d : Disk)
    : Result (list string) * Disk :=
  let rulesDir := ".cursor/rules" in
  match ensureDirectoryExists rulesDir d with
  | (Throw m, d') => (Throw m, d')
  | (Ok _, d') =>
      let filename :=
        Js.replaceRunsNonAlnum (Js.toLowerCase (u_name rule)) +:+ ".mdc" in
      let filepath := path_join host rulesDir filename in
      let frontmatter :=
        [("description",
          YString (Js.orElse (default "" (u_description rule))
                             (u_name rule)))] in
      let frontmatter :=
        match u_type rule, u_patterns rule with
        | u_always, _ => frontmatter ++ [("alwaysApply", YBool true)]
        | u_pattern, Some p => frontmatter ++ [("globs", YList p)]
        | _, _ => frontmatter
        end in
      let yamlFrontmatter := yaml_dump host frontmatter in
      let text :=
        "---" +:+ nl +:+ yamlFrontmatter +:+ "---" +:+ nl +:+ nl +:+
        u_content rule in
      match Fs.writeFile filepath text d' with
      | (Ok _, d'') => (Ok [filepath], d'')
      | (Throw m, d'') => (Throw m, d'')
      end
  end.

(** The local [content] receives the pattern line, the context line and
    the header; the text appended to the file is built from
    [rule.content]. *)
Definition convertToClaudeCode (rule : UniversalRule) (d : Disk)
    : Result (list string) * Disk :=
  let filepath := "CLAUDE.md" in
  let content := u_content rule in
  let content :=
    match u_type rule, u_patterns rule with
    | u_pattern, Some p =>
        let patternContext :=
          "When working with files matching: " +:+ Js.join ", " p +:+
          nl +:+ nl in
        patternContext +:+ content
    | _, _ => content
    end in
  let content :=
    match u_type rule, u_context rule with
    | u_ai_decision, Some c =>
        if Js.truthy c
        then ("Context: " +:+ c +:+ nl +:+ nl) +:+ content else content
    | _, _ => content
    end in
  let content :=
    if negb (Js.startsWith content "#")
    then "# " +:+ u_name rule +:+ nl +:+ nl +:+ content else content in
  let existingContent :=
    match files d !! filepath with
    | Some text => text
    | None => "# AI Assistant Guidelines" +:+ nl +:+ nl
    end in
  let existingContent :=
    existingContent +:+ nl +:+ "## " +:+ u_name rule +:+ nl +:+ nl +:+
    u_content rule +:+ nl in
  match Fs.writeFile filepath existingContent d with
  | (Ok _, d') => (Ok [filepath], d')
  | (Throw m, d') => (Throw m, d')
  end.

(** [frontmatter[k] = v]: a key already present keeps its place. *)
Fixpoint setKey (o : YamlObject) (k : string) (v : YamlValue) : YamlObject :=
  match o with
  | [] => [(k, v)]
  | (k', v') :: rest =>
      if bool_decide (k' = k) then (k', v) :: rest
      else (k', v') :: setKey rest k v
  end.

(** [rule.name.toLowerCase().replace(/[^a-z0-9]+/g, '-')]. *)
Definition sanitizedName (rule : UniversalRule) : string :=
  Js.replaceRunsNonAlnum (Js.toLowerCase (u_name rule)).

(** The steps common to the converters with one file per rule:
    [ensureDirectoryExists(rulesDir)], [path.join(rulesDir, filename)],
    [fs.writeFile] and [return [filepath]]. *)
Definition writeRuleFile (rulesDir filename text : string) (d : Disk)
    : Result (list string) * Disk :=
  match ensureDirectoryExists rulesDir d with
  | (Throw m, d') => (Throw m, d')
  | (Ok _, d') =>
      let filepath := path_join host rulesDir filename in
      match Fs.writeFile filepath text d' with
      | (Ok _, d'') => (Ok [filepath], d'')
      | (Throw m, d'') => (Throw m, d'')
      end
  end.

(** [let content = rule.content; if (!content.startsWith('#')) content =
    `# ${rule.name}\n\n${content}`]. *)
Definition withHeader (rule : UniversalRule) : string :=
  let content := u_content rule in
  if negb (Js.startsWith content "#")
  then "# " +:+ u_name rule +:+ nl +:+ nl +:+ content else content.

Definition convertToWindsurf (rule : UniversalRule) (d : Disk)
    : Result (list string) * Disk :=
  writeRuleFile ".windsurf/rules" (sanitizedName rule +:+ ".md")
                (withHeader rule) d.

Definition convertToCline (rule : UniversalRule) (d : Disk)
    : Result (list string) * Disk :=
  writeRuleFile ".clinerules" (sanitizedName rule +:+ ".md")
                (withHeader rule) d.

Definition convertToVSCode (rule : UniversalRule) (d : Disk)
    : Result (list string) * Disk :=
  writeRuleFile ".vscode/rules" (sanitizedName rule +:+ ".md")
                (withHeader rule) d.

Definition convertToQoder (rule : UniversalRule) (d : Disk)
    : Result (list string) * Disk :=
  let frontmatter : YamlObject := [] in
  let frontmatter :=
    match u_type rule with
    | u_always =>
        setKey (setKey frontmatter "trigger" (YString "always_on"))
               "alwaysApply" (YBool true)
    | u_pattern =>
        let frontmatter := setKey frontmatter "trigger" (YString "glob") in
        match u_patterns rule with
        | Some p => setKey frontmatter "glob" (YString (Js.join "," p))
        | None => frontmatter
        end
    | u_manual => setKey frontmatter "trigger" (YString "manual")
    | u_ai_decision =>
        let frontmatter :=
          setKey frontmatter "trigger" (YString "model_decision") in
        match u_context rule with
        | Some c =>
            if Js.truthy c then setKey frontmatter "description" (YString c)
            else frontmatter
        | None => frontmatter
        end
    end in
  let frontmatter :=
    match u_description rule with
    | Some dsc =>
        if Js.truthy dsc then setKey frontmatter "description" (YString dsc)
        else frontmatter
    | None => frontmatter
    end in
  let yamlFrontmatter := yaml_dump host frontmatter in
  let text :=
    "---" +:+ nl +:+ yamlFrontmatter +:+ "---" +:+ nl +:+ nl +:+
    u_content rule in
  writeRuleFile ".qoder/rules" (sanitizedName rule +:+ ".md") text d.

Definition convertToTrae (rule : UniversalRule) (d : Disk)
    : Result (list string) * Disk :=
  let frontmatter : YamlObject := [("title", YString (u_name rule))] in
  let frontmatter :=
    match u_description rule with
    | Some dsc =>
        if Js.truthy dsc then setKey frontmatter "description" (YString dsc)
        else frontmatter
    | None => frontmatter
    end in
  let frontmatter :=
    match u_patterns rule with
    | Some p => setKey frontmatter "patterns" (YList p)
    | None => frontmatter
    end in
  let yamlFrontmatter := yaml_dump host frontmatter in
  let text :=
    "---" +:+ nl +:+ yamlFrontmatter +:+ "---" +:+ nl +:+ nl +:+
    u_content rule in
  writeRuleFile ".trae/rules" (sanitizedName rule +:+ ".md") text d.

(** *** The section pattern
    [new RegExp(`---- ${sectionName} ----[\s\S]*?(?=---- |$)`, 'g')] *)

(** The lazy [[\s\S]*?] before the lookahead [(?=---- |$)]: the shortest
    text after which [---- ] or the end of the input follows, and what is
    left after it. *)
Fixpoint lazyBody (s : string) : string * string :=
  match s with
  | EmptyString => ("", "")
  | String c s' =>
      if String.prefix "---- " s then ("", s)
      else let '(body, rest) := lazyBody s' in (String c body, rest)
  end.

(** The replacement string of [String.prototype.replace] for a pattern
    without capture groups: [$$], [$&], [$`] and [$'] are replaced, any
    other text stands for itself. *)
Fixpoint expand (replacement matched before after : string) : string :=
  match replacement with
  | EmptyString => ""
  | String c r =>
      if bool_decide (c = "$"%char) then
        match r with
        | EmptyString => "$"
        | String c2 r2 =>
            if bool_decide (c2 = "$"%char) then
              "$" +:+ expand r2 matched before after
            else if bool_decide (c2 = "&"%char) then
              matched +:+ expand r2 matched before after
            else if bool_decide (c2 = "`"%char) then
              before +:+ expand r2 matched before after
            else if bool_decide (c2 = "'"%char) then
              after +:+ expand r2 matched before after
            else String c (expand r matched before after)
        end
      else String c (expand r matched before after)
  end.

Fixpoint dropChars (n : nat) (s : string) : string :=
  match n, s with
  | S k, String _ s' => dropChars k s'
  | _, _ => s
  end.

(** [text.replace(pattern, replacement)] for the global pattern that
    starts with the literal [lit]: every match, found from the end of the
    previous one on, is replaced.  [skip] counts the code units of the
    current match still to pass over and [before] holds the text passed
    so far, reversed. *)
Fixpoint replaceSections (lit replacement : string) (skip : nat)
    (before s : string) : string :=
  match s with
  | EmptyString => ""
  | String c s' =>
      match skip with
      | S k => replaceSections lit replacement k (String c before) s'
      | O =>
          if String.prefix lit s then
            let '(body, after) := lazyBody (dropChars (String.length lit) s) in
            let matched := lit +:+ body in
            expand replacement matched (String.rev before) after +:+
            replaceSections lit replacement (String.length matched - 1)
                            (String c before) s'
          else
            String c (replaceSections lit replacement 0 (String c before) s')
      end
  end.

(** The read, replace-or-append and write that [convertToCodex] and
    [convertToQwenCoder] share, for the file [filepath] and the text
    [header] used when the file cannot be read. *)
Definition upsertSection (filepath header : string) (rule : UniversalRule)
    (d : Disk) : Result (list string) * Disk :=
  let sectionName := sanitizedName rule in
  let sectionContent :=
    "---- " +:+ sectionName +:+ " ----" +:+ nl +:+ nl +:+ u_content rule +:+
    nl +:+ nl in
  let existingContent := default header (files d !! filepath) in
  let lit := "---- " +:+ sectionName +:+ " ----" in
  let existingContent :=
    if Js.includes existingContent lit
    then replaceSections lit sectionContent 0 "" existingContent
    else existingContent +:+ sectionContent in
  match Fs.writeFile filepath existingContent d with
  | (Ok _, d') => (Ok [filepath], d')
  | (Throw m, d') => (Throw m, d')
  end.

Definition convertToCodex (rule : UniversalRule) (d : Disk)
    : Result (list string) * Disk :=
  upsertSection "AGENTS.md" ("# Project Agent Rules" +:+ nl +:+ nl) rule d.

Definition convertToQwenCoder (rule : UniversalRule) (d : Disk)
    : Result (list string) * Disk :=
  upsertSection "QWEN.md" ("# QwenCoder Context" +:+ nl +:+ nl) rule d.

Definition convertUniversalRule (rule : UniversalRule)
    (targetEditor : EditorType) (d : Disk) : Result (list string) * Disk :=
  match targetEditor with
  | cursor => convertToCursor rule d
  | windsurf => convertToWindsurf rule d
  | cline => convertToCline rule d
  | codex => convertToCodex rule d
  | claude_code => convertToClaudeCode rule d
  | qoder => convertToQoder rule d
  | qwencoder => convertToQwenCoder rule d
  | trae => convertToTrae rule d
  | vscode => convertToVSCode rule d
  end.

End WithHost.

End Universal.

(** ** [src/commands/index.ts] *)

Module Commands.

Record EditorGroup : Type := mkEditorGroup {
  editorType : EditorType;
  names : list string
}.

(** A [Map<EditorType, string[]>] as its entries in insertion order. *)
Definition GroupMap : Type := list (EditorType * list string).

(** [groups.get(k)]. *)
Fixpoint mapGet (groups : GroupMap) (k : EditorType) : option (list string) :=
  match groups with
  | [] => None
  | (k', ns) :: rest => if bool_decide (k' = k) then Some ns else mapGet rest k
  end.

(** [groups.set(k, ns)]: a key already present keeps its place. *)
Fixpoint mapSet (groups : GroupMap) (k : EditorType) (ns : list string)
    : GroupMap :=
  match groups with
  | [] => [(k, ns)]
  | (k', ns') :: rest =>
      if bool_decide (k' = k) then (k', ns) :: rest
      else (k', ns') :: mapSet rest k ns
  end.

(** The loop of [groupEditorsByType]. *)
Fixpoint groupEach (editorNames : list string) (groups : GroupMap)
    : GroupMap :=
  match editorNames with
  | [] => groups
  | shown :: rest =>
      match getEditorByDisplayName shown with
      | None => groupEach rest groups
      | Some editorType =>
          let existing := default [] (mapGet groups editorType) in
          groupEach rest (mapSet groups editorType (existing ++ [shown]))
      end
  end.

Definition groupEditorsByType (editorNames : list string) : list EditorGroup :=
  (λ entry, mkEditorGroup entry.1 entry.2) <$> groupEach editorNames [].

(** The result [{base, aliases}] as a pair. *)
Definition getEditorLabelParts (group : EditorGroup) : string * list string :=
  let config := EDITOR_CONFIGS (editorType group) in
  let aliases :=
    filter (λ shown, shown ≠ displayName config) (names group) in
  (displayName config, aliases).

(** The names [selectTargetEditors] offers as choices for a source
    editor: [allEditors.filter(name => !namesToExclude.includes(name))]. *)
Definition targetChoices (sourceEditor : EditorType) : list string :=
  let allEditors := getEditorDisplayNames in
  let namesToExclude := getDisplayNamesForEditor sourceEditor in
  filter (λ shown, arrayIncludes namesToExclude shown = false) allEditors.

Record AddRuleResult : Type := mkAddRuleResult {
  add_success : bool;
  add_rule : UniversalRule;
  add_outputFiles : list string;
  add_errors : list string;
  add_warnings : list string
}.

Section WithHost.

Context (host : Host).

(** The loop of [addRuleToEditors] over the editors still to process. *)
Fixpoint addEach (rule : UniversalRule) (editors : list EditorType)
    (result : AddRuleResult) (d : Disk) : AddRuleResult * Disk :=
  match editors with
  | [] => (result, d)
  | editor :: rest =>
      match Universal.convertUniversalRule host rule editor d with
      | (Ok written, d') =>
          addEach rule rest
            (mkAddRuleResult (add_success result) (add_rule result)
               (add_outputFiles result ++ written) (add_errors result)
               (add_warnings result))
            d'
      | (Throw m, d') =>
          addEach rule rest
            (mkAddRuleResult false (add_rule result)
               (add_outputFiles result)
               (add_errors result ++
                ["Failed to convert rule for " +:+ editorString editor +:+
                 ": " +:+ m])
               (add_warnings result))
            d'
      end
  end.

(** [rule.targetEditors] is passed beside the rule. *)
Definition addRuleToEditors (rule : UniversalRule)
    (targetEditors : list EditorType) (d : Disk) : AddRuleResult * Disk :=
  addEach rule targetEditors (mkAddRuleResult true rule [] [] []) d.

End WithHost.

End Commands.

(** ** Predicates of the statements *)

(** Every location of the editor, primary ones first. *)
Definition allLocations (e : EditorType) : list string :=
  locations (EDITOR_CONFIGS e) ++ default [] (legacyLocations (EDITOR_CONFIGS e)).

(** The shared files of a single-file editor that are present can be read. *)
Definition sharedFilesReadable (host : Host) (proj : Project)
    (projectPath : string) (e : EditorType) : Prop :=
  Parsers.isSingleFileEditor e = true →
  ∀ loc, loc ∈ allLocations e →
    stat proj (path_resolve host projectPath loc) = Some IsFile →
    ∃ text, readFile proj (path_resolve host projectPath loc) = Ok text.

(** The Qoder triggers that select an activation other than by pattern. *)
Definition overridingTrigger (fm : Frontmatter) : bool :=
  match fm_trigger fm with
  | Some t =>
      bool_decide (t = "manual") || bool_decide (t = "model_decision") ||
      bool_decide (t = "always_on")
  | None => false
  end.

(** [a] may stand before [b] in a list sorted by descending rule count. *)
Definition descending (a b : DetectionResult) : Prop :=
  ruleCount b ≤ ruleCount a.

(** [l] after its longest prefix of elements that satisfy [p]. *)
Fixpoint dropWhileList {A : Type} (p : A → bool) (l : list A) : list A :=
  match l with
  | [] => []
  | x :: l' => if p x then dropWhileList p l' else l
  end.

(** [String.prototype.trim] on the list of code units. *)
Definition trimList (l : list ascii) : list ascii :=
  reverse (dropWhileList Js.isSpace (reverse (dropWhileList Js.isSpace l))).

(** What every rule found for editor [e] satisfies. *)
Definition detectedRule (e : EditorType) (r : Rule) : Prop :=
  source r = e ∧ name r ≠ "" ∧ patterns r ≠ Some [] ∧
  Js.trim (content r) = content r ∧
  is_Some (description r) ∧ is_Some (metadata r).

(** The state of a scan: the location is empty exactly when no rule was
    found, and a location that is set is the resolved path of one of
    [locs], present on disk. *)
Definition scanInvariant (host : Host) (proj : Project) (p : string)
    (locs : list string) (acc : list Rule * string) : Prop :=
  (acc.1 = [] ↔ acc.2 = "") ∧
  (acc.2 = "" ∨
   ∃ loc, loc ∈ locs ∧ acc.2 = path_resolve host p loc ∧
          existsSync proj acc.2 = true).

(** What a Qoder trigger written for a rule type reads back as. *)
Definition qoderReadBack (t : RuleType) : RuleType :=
  match t with
  | manual => manual
  | model_decision | agent_requested => model_decision
  | always => always
  | auto_attached | glob_pattern | specific_files => glob_pattern
  end.

(** The characters of a generated file name before its extension. *)
Definition fileNameChar (c : ascii) : bool :=
  Js.lowerAlnum c || bool_decide (c = "-"%char).

(** The path [convertToEditor] writes [rule] to, for an editor with one
    file per rule. *)
Definition rulePath (host : Host) (e : EditorType) (outputDir : string)
    (rule : Rule) : string :=
  path_join host outputDir (Converters.generateFileName rule e).

(** The files after writing each rule of [rules] in turn: a later rule
    with the same path replaces an earlier one. *)
Definition filesAfter (host : Host) (e : EditorType) (outputDir : string)
    (rules : list Rule) (before : gmap string string) : gmap string string :=
  foldl (λ m rule, <[rulePath host e outputDir rule :=
                       Converters.convertRuleContent host rule e]> m)
        before rules.

(** [d'] is [d] after some writes and directory creations: the error
    behaviour is the same, the log grew by [new], directories were only
    added, every path of [new] holds a file and every other path holds
    what it held. *)
Definition grownBy (d d' : Disk) (new : list string) : Prop :=
  writeError d' = writeError d ∧ mkdirError d' = mkdirError d ∧
  writes d' = writes d ++ new ∧
  dirs d ⊆ dirs d' ∧
  (∀ p, p ∈ new → is_Some (files d' !! p)) ∧
  (∀ p, p ∉ new → files d' !! p = files d !! p).

(** The names of [input], in order, that resolve to editor [k]. *)
Definition resolvingTo (k : EditorType) (input : list string) : list string :=
  filter (λ shown, getEditorByDisplayName shown = Some k) input.

(** The state of the grouping loop once the names [seen] are processed. *)
Definition grouped (seen : list string) (g : Commands.GroupMap) : Prop :=
  NoDup g.*1 ∧
  ∀ k, Commands.mapGet g k =
         match resolvingTo k seen with [] => None | l => Some l end.

(** The directory and the extension the universal converter of an editor
    with one file per rule writes to. *)
Definition universalTarget (e : EditorType) : option (string * string) :=
  match e with
  | cursor => Some (".cursor/rules", ".mdc")
  | windsurf => Some (".windsurf/rules", ".md")
  | cline => Some (".clinerules", ".md")
  | qoder => Some (".qoder/rules", ".md")
  | trae => Some (".trae/rules", ".md")
  | vscode => Some (".vscode/rules", ".md")
  | codex | claude_code | qwencoder => None
  end.

(** The text that [content.split(/^---- (.+?) ----$/gm)] was split from:
    the pieces in turn, each captured name back inside its delimiter. *)
Fixpoint joinSections (pieces : list string) : string :=
  match pieces with
  | [] => ""
  | piece :: rest =>
      piece +:+
      match rest with
      | [] => ""
      | n :: rest' => "---- " +:+ n +:+ " ----" +:+ joinSections rest'
      end
  end.

(** No line of [s] is a section delimiter; [atStart] tells whether [s]
    begins at the start of a line. *)
Fixpoint delimiterFree (atStart : bool) (s : string) : bool :=
  match s with
  | EmptyString => true
  | String c s' =>
      match (if atStart
             then Parsers.delimiterName (Parsers.takeWhile Parsers.notTerminator s)
             else None) with
      | Some _ => false
      | None => delimiterFree (Js.isLineTerminator c) s'
      end
  end.

(** A rule that a shared file with delimited sections can carry: its name
    is not empty, is trimmed and fits on one line, and its body is not
    empty, is trimmed and has no delimiter line. *)
Definition sectionSafe (r : Rule) : Prop :=
  name r ≠ "" ∧ Js.trim (name r) = name r ∧
  Js.allChars Parsers.notTerminator (name r) = true ∧
  content r ≠ "" ∧ Js.trim (content r) = content r ∧
  delimiterFree true (content r) = true.

(** The rule [parseSingleFileWithSections] builds for the section that
    carries [r]. *)
Definition reparsed (e : EditorType) (filePath : string) (r : Rule) : Rule :=
  mkRule (name r)
         (Some (name r +:+ " rules from " +:+
                (if bool_decide (e = codex) then "Codex CLI" else "QwenCoder")))
         (content r) always None (Some (SectionMeta filePath (name r))) e.

(** The array after its first entry that splitting the shared file of
    [rules] gives: each name followed by the piece that holds the body. *)
Fixpoint sectionPieces (rules : list Rule) : list string :=
  match rules with
  | [] => []
  | rule :: rest =>
      name rule ::
      (nl +:+ nl +:+ content rule +:+
       match rest with [] => "" | _ => nl +:+ nl end) ::
      sectionPieces rest
  end.

(** ** Sample inputs *)

Module Fixtures.

Definition lines (l : list string) : string := Js.join nl l.

Definition noFrontmatter : Frontmatter :=
  mkFrontmatter None None None None None None.

(** A Cursor rule with a glob list and [alwaysApply: true]. *)
Definition globsAndAlways : string :=
  lines ["---"; "globs:"; "  - 'lib/**'"; "alwaysApply: true"; "---";
         "Use strict types"].

(** The same glob field once as a comma-separated string, once as a list. *)
Definition globsAsString : string :=
  lines ["---"; "globs: '*.ts, *.tsx'"; "---"; "Use strict types"].

Definition globsAsList : string :=
  lines ["---"; "globs: ['*.ts', '*.tsx']"; "---"; "Use strict types"].

Definition globsOnly : string :=
  lines ["---"; "globs:"; "  - 'lib/**'"; "---"; "Use strict types"].

Definition alwaysOnly : string :=
  lines ["---"; "alwaysApply: true"; "---"; "# TS"; "- rule"].

(** gray-matter on the documents above, and on text without a leading
    [---] line, which it hands back unchanged with empty data. *)
Definition sampleMatter (text : string) : option Parsed :=
  if bool_decide (text = globsAndAlways) then
    Some (mkParsed "Use strict types"
            (mkFrontmatter None (Some (GlobList ["lib/**"])) (Some true)
                           None None None))
  else if bool_decide (text = globsAsString) then
    Some (mkParsed "Use strict types"
            (mkFrontmatter None (Some (GlobString "*.ts, *.tsx")) None
                           None None None))
  else if bool_decide (text = globsAsList) then
    Some (mkParsed "Use strict types"
            (mkFrontmatter None (Some (GlobList ["*.ts"; "*.tsx"])) None
                           None None None))
  else if bool_decide (text = globsOnly) then
    Some (mkParsed "Use strict types"
            (mkFrontmatter None (Some (GlobList ["lib/**"])) None
                           None None None))
  else if bool_decide (text = alwaysOnly) then
    Some (mkParsed (lines ["# TS"; "- rule"])
            (mkFrontmatter None None (Some true) None None None))
  else if Js.startsWith text "---" then None
  else Some (mkParsed text noFrontmatter).

(** A one-line-per-key rendering standing for js-yaml. *)
Definition sampleYaml (o : YamlObject) : string :=
  foldr (λ kv out,
           kv.1 +:+ ": " +:+
           match kv.2 with
           | YString v => v
           | YBool b => if b then "true" else "false"
           | YList l => "[" +:+ Js.join ", " l +:+ "]"
           end +:+ nl +:+ out)
        "" o.

Definition sampleStringify (text : string) (o : YamlObject) : string :=
  "---" +:+ nl +:+ sampleYaml o +:+ "---" +:+ nl +:+ text +:+ nl.

(** [path.join] and [path.resolve] on a base and a relative path without
    dot segments: one slash between them, no trailing slash, and the
    base [.] dropped. *)
Definition samplePath (base rel : string) : string :=
  (if bool_decide (base = ".") then "" else base +:+ "/") +:+
  String.rev (Parsers.dropWhile (λ c, bool_decide (c = "/"%char))
                                (String.rev rel)).

Definition host : Host :=
  mkHost samplePath samplePath sampleMatter sampleStringify sampleYaml.

Definition agentsFile : string :=
  lines ["# Project Agent Rules"; ""; "---- style ----"; "";
         "Prefer small functions"; ""; "---- tests ----"; "";
         "Write a test first"].

(** A project holding [.cursor/rules/typescript.mdc] and [AGENTS.md]. *)
Definition project : Project :=
  mkProject
    (λ p, if bool_decide (p = "/proj/.cursor/rules") then Some IsDirectory
          else if bool_decide (p = "/proj/AGENTS.md") then Some IsFile
          else None)
    (λ p, if bool_decide (p = "/proj/.cursor/rules/typescript.mdc")
          then Ok alwaysOnly
          else if bool_decide (p = "/proj/AGENTS.md") then Ok agentsFile
          else Throw ("ENOENT: no such file or directory, open '" +:+ p
                      +:+ "'"))
    (λ patterns,
       if bool_decide (patterns = ["/proj/.cursor/rules/**/*.mdc"])
       then ["/proj/.cursor/rules/typescript.mdc"] else []).

(** A project with no rule source at all. *)
Definition emptyProject : Project :=
  mkProject (λ _, None) (λ p, Throw "ENOENT") (λ _, []).

(** An empty output tree where every operation succeeds. *)
Definition emptyDisk : Disk :=
  mkDisk ∅ ∅ (λ _, None) (λ _, None) [].

(** An empty output tree where [.cursor/rules] cannot be written to. *)
Definition lockedCursorDisk : Disk :=
  mkDisk ∅ ∅
    (λ p, if Js.startsWith p ".cursor/rules/"
          then Some ("EACCES: permission denied, open '" +:+ p +:+ "'")
          else None)
    (λ _, None) [].

Definition styleRule : Rule :=
  mkRule "C++ Rules" (Some "Style") "Prefer small functions" always None
         None cursor.

Definition testsRule : Rule :=
  mkRule "tests" (Some "") "Write a test first" glob_pattern
         (Some ["src/**/*.ts"]) None cursor.

Definition patternRule : UniversalRule :=
  mkUniversalRule "ts" u_pattern "Use strict types" (Some ["src/**/*.ts"])
                  None None.

Definition cppRule : UniversalRule :=
  mkUniversalRule "C++ Rules" u_always "Prefer small functions" None None
                  None.

End Fixtures.

(** ** Further sample inputs *)

Module Samples.

(** A Windsurf rule that sets [filesToApplyRule] next to [globs] and
    [alwaysApply]. *)
Definition windsurfScoped : string :=
  Fixtures.lines ["---"; "filesToApplyRule: 'src/**'"; "globs: '*.ts'";
                  "alwaysApply: true"; "---"; "Use strict types"].

Definition windsurfMatter (text : string) : option Parsed :=
  if bool_decide (text = windsurfScoped) then
    Some (mkParsed "Use strict types"
            (mkFrontmatter None (Some (GlobString "*.ts")) (Some true)
                           (Some "src/**") None None))
  else Fixtures.sampleMatter text.

Definition windsurfHost : Host :=
  mkHost Fixtures.samplePath Fixtures.samplePath windsurfMatter
         Fixtures.sampleStringify Fixtures.sampleYaml.

(** Front matter whose YAML does not parse. *)
Definition brokenFrontmatter : string :=
  Fixtures.lines ["---"; "globs: ["; "---"; "Use strict types"].

(** A rule whose name gives the file name of [Fixtures.styleRule]. *)
Definition sharpRule : Rule :=
  mkRule "C## Rules" (Some "Style") "Prefer short functions" always None
         None cursor.

(** A project whose [AGENTS.md] is the shared file written for two rules. *)
Definition convertedProject : Project :=
  mkProject
    (λ p, if bool_decide (p = "/proj/AGENTS.md") then Some IsFile else None)
    (λ p, if bool_decide (p = "/proj/AGENTS.md")
          then Ok (Converters.singleFileHeader codex +:+
                   Converters.singleFileSections codex
                     [Fixtures.styleRule; Fixtures.testsRule])
          else Throw "ENOENT")
    (λ _, []).

End Samples.

(** * Properties *)

(** ** Display names *)

Section DisplayNames.

Lemma editorKeys_complete (e : EditorType) : e ∈ editorKeys.
Proof. destruct e; unfold editorKeys; set_solver. Qed.

Lemma getEditorByDisplayName_None (shown : string) :
  (∀ e, shown ∉ getDisplayNamesForEditor e) →
  getEditorByDisplayName shown = None.
Proof.
  intros Hno.
  assert (Hgen : ∀ es, findByDisplayName ((λ e, (e, EDITOR_CONFIGS e)) <$> es) shown = None).
  { induction es as [|e es IH]; [done|].
    cbn [fmap list_fmap findByDisplayName].
    specialize (Hno e). unfold getDisplayNamesForEditor in Hno.
    rewrite bool_decide_eq_false_2.
    2:{ intros Heq. apply Hno. destruct (aliasDisplayNames _); rewrite Heq; set_solver. }
    destruct (aliasDisplayNames (EDITOR_CONFIGS e)) as [al|] eqn:Hal; [|exact IH].
    unfold arrayIncludes. rewrite bool_decide_eq_false_2; [exact IH|].
    intros Hin. apply Hno. set_solver. }
  apply Hgen.
Qed.

Lemma getEditorByDisplayName_Some (e : EditorType) (shown : string) :
  shown ∈ getDisplayNamesForEditor e → getEditorByDisplayName shown = Some e.
Proof.
  intros Hin. apply list_elem_of_In in Hin.
  destruct e; cbn in Hin;
    repeat (destruct Hin as [<-|Hin]; [vm_compute; reflexivity|]);
    destruct Hin.
Qed.

(** C8.  Every display name of an editor, aliases included, resolves back
    to that editor, and a string that is the display name or alias of no
    editor resolves to nothing. *)
Theorem displayName_round_trip :
  (∀ (e : EditorType) (shown : string),
      shown ∈ getDisplayNamesForEditor e →
      getEditorByDisplayName shown = Some e) ∧
  (∀ shown : string,
      (∀ e, shown ∉ getDisplayNamesForEditor e) →
      getEditorByDisplayName shown = None).
Proof.
  split.
  - apply getEditorByDisplayName_Some.
  - apply getEditorByDisplayName_None.
Qed.

Lemma displayName_round_trip_witness :
  getEditorByDisplayName "VSCode Agents" = Some codex ∧
  getEditorByDisplayName "Claude Code" = Some claude_code ∧
  getEditorByDisplayName "codex" = None.
Proof.
  destruct displayName_round_trip as [Hsome Hnone].
  split; [|split].
  - apply Hsome. apply (bool_decide_unpack _). vm_compute. exact I.
  - apply Hsome. apply (bool_decide_unpack _). vm_compute. exact I.
  - apply Hnone. intros e. apply (bool_decide_unpack _).
    destruct e; vm_compute; exact I.
Defined.

End DisplayNames.

(** ** Detection *)

Section Detection.

Import Parsers.

Context (host : Host) (proj : Project).

Ltac result_cases :=
  repeat match goal with
    | H : context [mbind _ ?m] |- _ =>
        let E := fresh "E" in
        destruct m eqn:E; unfold mbind, Result_bind in H; cbn beta iota in H
    | H : match ?m with Ok _ => _ | Throw _ => _ end = Ok _ |- _ =>
        let E := fresh "E" in
        destruct m eqn:E
    | H : Ok _ = Ok _ |- _ => injection H as H
    | H : Throw _ = Ok _ |- _ => discriminate H
    end.

(** *** The stable sort *)

Lemma insertBy_perm {A} (compare : A → A → Z) (x : A) (l : list A) :
  Js.insertBy compare x l ≡ₚ x :: l.
Proof.
  induction l as [|y l IH]; cbn; [done|].
  destruct (compare x y <=? 0)%Z; [done|].
  rewrite IH. apply Permutation_swap.
Qed.

Lemma sort_perm {A} (compare : A → A → Z) (l : list A) :
  Js.sort compare l ≡ₚ l.
Proof.
  induction l as [|x l IH]; cbn; [done|].
  unfold Js.sort in IH. by rewrite insertBy_perm, IH.
Qed.

Lemma insertBy_descending (x : DetectionResult) (l : list DetectionResult) :
  StronglySorted descending l →
  StronglySorted descending (Js.insertBy byRuleCountDesc x l).
Proof.
  induction 1 as [|y l Hs IH Hall]; cbn.
  - repeat constructor.
  - destruct (byRuleCountDesc x y <=? 0)%Z eqn:Hc.
    + apply Z.leb_le in Hc. unfold byRuleCountDesc in Hc.
      constructor; [by constructor|].
      constructor; [unfold descending; lia|].
      eapply Forall_impl; [exact Hall|].
      unfold descending. intros z Hz. lia.
    + apply Z.leb_gt in Hc. unfold byRuleCountDesc in Hc.
      constructor; [exact IH|].
      rewrite insertBy_perm. constructor; [unfold descending; lia|done].
Qed.

Lemma sort_descending (l : list DetectionResult) :
  StronglySorted descending (Js.sort byRuleCountDesc l).
Proof.
  induction l as [|x l IH]; cbn; [constructor|].
  by apply insertBy_descending.
Qed.

(** *** One editor *)

Lemma detectRulesForEditor_shape (e : EditorType) (p : string)
    (r : DetectionResult) :
  detectRulesForEditor host proj e p = Ok r →
  editor r = e ∧ ruleCount r = length (rules r).
Proof.
  unfold detectRulesForEditor. intros H. result_cases.
  by subst r.
Qed.

Lemma scanLocations_missing (e : EditorType) (p : string)
    (locs : list string) (acc : list Rule * string) :
  (∀ loc, loc ∈ locs → existsSync proj (path_resolve host p loc) = false) →
  scanLocations host proj e p locs acc = Ok acc.
Proof.
  induction locs as [|loc locs IH]; intros Hmiss; cbn; [done|].
  rewrite Hmiss by set_solver. apply IH. intros; apply Hmiss; set_solver.
Qed.

Lemma detectRulesForEditor_missing (e : EditorType) (p : string) :
  (∀ loc, loc ∈ allLocations e →
          existsSync proj (path_resolve host p loc) = false) →
  detectRulesForEditor host proj e p = Ok (mkDetectionResult e [] "" 0).
Proof.
  unfold allLocations, detectRulesForEditor. intros Hmiss.
  rewrite scanLocations_missing by (intros; apply Hmiss; set_solver).
  cbn. destruct (legacyLocations (EDITOR_CONFIGS e)) as [legacy|]; [|done].
  rewrite scanLocations_missing; [done|].
  intros; apply Hmiss; set_solver.
Qed.

Lemma parseRulesFromLocation_returns (e : EditorType) (location : string) :
  existsSync proj location = true →
  (isSingleFileEditor e = true → stat proj location = Some IsFile →
   ∃ text, readFile proj location = Ok text) →
  ∃ found, parseRulesFromLocation host proj e location = Ok found.
Proof.
  unfold existsSync, parseRulesFromLocation. intros Hex Hread.
  apply bool_decide_eq_true in Hex as [k Hk]. rewrite Hk.
  destruct k; [|by eauto..].
  destruct (isSingleFileEditor e) eqn:Hs; [|by eauto].
  destruct (Hread eq_refl Hk) as [text Htext].
  unfold parseSingleFileWithSections. rewrite Htext. cbn.
  destruct (_ || _); by eauto.
Qed.

Lemma scanLocations_returns (e : EditorType) (p : string)
    (locs : list string) (acc : list Rule * string) :
  (isSingleFileEditor e = true → ∀ loc, loc ∈ locs →
     stat proj (path_resolve host p loc) = Some IsFile →
     ∃ text, readFile proj (path_resolve host p loc) = Ok text) →
  ∃ acc', scanLocations host proj e p locs acc = Ok acc'.
Proof.
  revert acc. induction locs as [|loc locs IH]; intros acc Hread; cbn.
  - by eauto.
  - destruct (existsSync proj (path_resolve host p loc)) eqn:Hex.
    + destruct (parseRulesFromLocation_returns e _ Hex) as [found ->].
      { intros Hs. apply Hread; [done|set_solver]. }
      cbn. apply IH. intros Hs l Hl. apply Hread; [done|set_solver].
    + apply IH. intros Hs l Hl. apply Hread; [done|set_solver].
Qed.

Lemma detectRulesForEditor_returns (e : EditorType) (p : string) :
  sharedFilesReadable host proj p e →
  ∃ r, detectRulesForEditor host proj e p = Ok r.
Proof.
  unfold sharedFilesReadable, allLocations, detectRulesForEditor.
  intros Hread.
  destruct (scanLocations_returns e p (locations (EDITOR_CONFIGS e)) ([], ""))
    as [acc ->].
  { intros Hs l Hl. apply Hread; [done|set_solver]. }
  cbn. destruct (legacyLocations (EDITOR_CONFIGS e)) as [legacy|] eqn:Hleg.
  - destruct (scanLocations_returns e p legacy acc) as [acc' ->].
    { intros Hs l Hl. apply Hread; [done|]. cbn. set_solver. }
    cbn. by eauto.
  - cbn. by eauto.
Qed.

(** C10.  A [DetectionResult] built by [detectRulesForEditor] carries its
    editor and a [ruleCount] equal to the length of its rule list; the
    function returns whenever the shared files present can be read; and
    when none of the editor's locations exists the result has no rule,
    count zero and an empty location. *)
Theorem detectRulesForEditor_ruleCount (e : EditorType) (p : string) :
  (∀ r, detectRulesForEditor host proj e p = Ok r →
        ruleCount r = length (rules r)) ∧
  (sharedFilesReadable host proj p e →
   ∃ r, detectRulesForEditor host proj e p = Ok r) ∧
  ((∀ loc, loc ∈ allLocations e →
           existsSync proj (path_resolve host p loc) = false) →
   ∃ r, detectRulesForEditor host proj e p = Ok r ∧
        rules r = [] ∧ ruleCount r = 0).
Proof.
  split; [|split].
  - intros r Hr. by apply detectRulesForEditor_shape in Hr as [_ ?].
  - apply detectRulesForEditor_returns.
  - intros Hmiss. eexists. split; [by apply detectRulesForEditor_missing|done].
Qed.

(** *** All editors *)

Lemma detectEach_spec (p : string) (es : list EditorType)
    (acc res : list DetectionResult) :
  detectEach host proj p es acc = Ok res →
  ∃ ds, Forall2 (λ e d, detectRulesForEditor host proj e p = Ok d) es ds ∧
        res = acc ++ filter (λ d, 0 < ruleCount d) ds.
Proof.
  revert acc. induction es as [|e es IH]; intros acc H; cbn in H.
  - exists []. split; [constructor|]. injection H as <-.
    by rewrite filter_nil, app_nil_r.
  - result_cases. destruct (IH _ H) as (ds & Hds & ->).
    exists (a :: ds). split; [by constructor|].
    rewrite filter_cons. destruct (decide (0 < ruleCount a)) as [Hpos|Hpos].
    + rewrite bool_decide_eq_true_2 by done. by rewrite <- app_assoc.
    + by rewrite bool_decide_eq_false_2 by done.
Qed.

Lemma detectEach_returns (p : string) (es : list EditorType)
    (acc : list DetectionResult) :
  (∀ e, sharedFilesReadable host proj p e) →
  ∃ res, detectEach host proj p es acc = Ok res.
Proof.
  intros Hread. revert acc. induction es as [|e es IH]; intros acc; cbn.
  - by eauto.
  - destruct (detectRulesForEditor_returns e p (Hread e)) as [r ->]. cbn.
    apply IH.
Qed.

Lemma editorKeys_NoDup : NoDup editorKeys.
Proof. apply (bool_decide_unpack _). vm_compute. exact I. Qed.

Lemma detections_editors (p : string) (es : list EditorType)
    (ds : list DetectionResult) :
  Forall2 (λ e d, detectRulesForEditor host proj e p = Ok d) es ds →
  editor <$> ds = es.
Proof.
  induction 1 as [|e d es ds Hd _ IH]; cbn; [done|].
  apply detectRulesForEditor_shape in Hd as [-> _]. by rewrite IH.
Qed.

Lemma detections_elem (p : string) (es : list EditorType)
    (ds : list DetectionResult) (r : DetectionResult) :
  Forall2 (λ e d, detectRulesForEditor host proj e p = Ok d) es ds →
  r ∈ ds ↔ editor r ∈ es ∧ detectRulesForEditor host proj (editor r) p = Ok r.
Proof.
  induction 1 as [|e d es ds Hd _ IH].
  - split; [by intros ?%elem_of_nil|by intros [?%elem_of_nil _]].
  - rewrite !elem_of_cons, IH. split.
    + intros [->|[??]]; [|by auto].
      pose proof (detectRulesForEditor_shape _ _ _ Hd) as [-> _]. by auto.
    + intros [[Heq|Hin] Hr]; [|by auto].
      left. rewrite Heq in Hr. congruence.
Qed.

(** C1.  When [detectAllRules] returns, its list holds exactly the
    detections, one per editor, of the editors with at least one
    discovered rule, ordered by descending rule count; and it returns
    whenever the shared files present can be read. *)
Theorem detectAllRules_one_per_dialect_sorted (p : string) :
  (∀ results, detectAllRules host proj p = Ok results →
     (∀ r, r ∈ results ↔
           detectRulesForEditor host proj (editor r) p = Ok r ∧
           0 < length (rules r)) ∧
     NoDup (editor <$> results) ∧
     StronglySorted descending results) ∧
  ((∀ e, sharedFilesReadable host proj p e) →
   ∃ results, detectAllRules host proj p = Ok results).
Proof.
  split.
  - unfold detectAllRules. intros results H. result_cases. subst results.
    apply detectEach_spec in E as (ds & Hds & ->). cbn [app].
    split; [|split].
    + intros r. rewrite sort_perm, list_elem_of_filter.
      rewrite (detections_elem p _ _ r Hds). split.
      * intros (Hpos & _ & Hr). split; [done|].
        by apply detectRulesForEditor_shape in Hr as [_ <-].
      * intros [Hr Hpos]. split; [|split; [apply editorKeys_complete|done]].
        by apply detectRulesForEditor_shape in Hr as [_ ->].
    + rewrite sort_perm.
      apply (sublist_NoDup _ editorKeys); [exact editorKeys_NoDup|].
      rewrite <- (detections_editors p _ _ Hds).
      apply fmap_sublist, sublist_filter.
    + apply sort_descending.
  - intros Hread. unfold detectAllRules.
    destruct (detectEach_returns p editorKeys [] Hread) as [res ->].
    cbn. by eauto.
Qed.

End Detection.

Lemma detectRulesForEditor_ruleCount_witness :
  (∃ r, Parsers.detectRulesForEditor Fixtures.host Fixtures.project codex
          "/proj" = Ok r ∧ ruleCount r = length (rules r)) ∧
  (∃ r, Parsers.detectRulesForEditor Fixtures.host Fixtures.emptyProject
          cursor "/proj" = Ok r ∧ rules r = [] ∧ ruleCount r = 0).
Proof.
  split.
  - destruct (detectRulesForEditor_ruleCount Fixtures.host Fixtures.project
                codex "/proj") as (Hcount & Hret & _).
    destruct Hret as [r Hr].
    + intros _ loc Hloc _. exists Fixtures.agentsFile.
      apply list_elem_of_In in Hloc. cbn in Hloc.
      destruct Hloc as [<-|[]]. reflexivity.
    + exists r. split; [exact Hr|]. apply Hcount, Hr.
  - destruct (detectRulesForEditor_ruleCount Fixtures.host
                Fixtures.emptyProject cursor "/proj") as (_ & _ & Hmiss).
    apply Hmiss. intros loc _. reflexivity.
Defined.

Lemma detectAllRules_one_per_dialect_sorted_witness :
  ∃ results,
    Parsers.detectAllRules Fixtures.host Fixtures.project "/proj" = Ok results ∧
    (editor <$> results) = [codex; cursor] ∧
    NoDup (editor <$> results) ∧
    StronglySorted descending results.
Proof.
  destruct (detectAllRules_one_per_dialect_sorted Fixtures.host
              Fixtures.project "/proj") as [Hspec _].
  eexists. split; [vm_compute; reflexivity|].
  split; [reflexivity|].
  apply Hspec. vm_compute. reflexivity.
Defined.

(** ** Parsing *)

Section Parsing.

Import Parsers.

Context (host : Host).

Lemma qoderTrigger_keeps_pattern (t : string) (st : Locals) :
  bool_decide (t = "manual") || bool_decide (t = "model_decision") ||
    bool_decide (t = "always_on") = false →
  Converters.isPatternType (ruleType st) = true →
  Converters.isPatternType (ruleType (qoderTrigger t st)) = true.
Proof.
  intros Hno Hpat. unfold qoderTrigger.
  repeat case_bool_decide; cbn in *; done.
Qed.

Lemma qoderSpecific_keeps_pattern (content filePath : string) (st : Locals) :
  Converters.isPatternType (ruleType st) = true →
  Converters.isPatternType
    (ruleType (editorSpecific qoder content filePath st)) = true.
Proof.
  intros Hpat. cbn. destruct (_ || _); [|done].
  by destruct (patternMatches content).
Qed.

(** C2, as amended.  In a dialect with front matter, a truthy [globs]
    field (a non-empty list in particular) gives a pattern activation
    type unless [alwaysApply] is [true] or a Qoder trigger selects
    another activation; with [alwaysApply: true] a Cursor, VSCode or Trae
    rule is of type [always], its glob list notwithstanding. *)
Theorem parseRuleContent_globs_activation (e : EditorType)
    (name content filePath : string) (parsed : Parsed) :
  hasYamlFrontmatter (EDITOR_CONFIGS e) = true →
  matter host content = Some parsed →
  truthyGlob (fm_globs (parsed_data parsed)) = true →
  (e = qoder → overridingTrigger (parsed_data parsed) = false) →
  (fm_alwaysApply (parsed_data parsed) ≠ Some true →
   Converters.isPatternType
     (type (parseRuleContent host e name content filePath)) = true) ∧
  (fm_alwaysApply (parsed_data parsed) = Some true →
   e ∈ [cursor; vscode; trae] →
   type (parseRuleContent host e name content filePath) = always).
Proof.
  intros Hyaml Hparsed Hglobs Htrig. unfold parseRuleContent.
  rewrite Hyaml, Hparsed. unfold readFrontmatter. rewrite Hglobs.
  split.
  - intros Hnot. rewrite bool_decide_eq_false_2 by done.
    destruct e; try discriminate Hyaml; cbn -[editorSpecific]; try done.
    + cbn. destruct (fm_filesToApplyRule _) as [f|]; [|done].
      by destruct (Js.truthy f).
    + apply qoderSpecific_keeps_pattern.
      specialize (Htrig eq_refl). unfold overridingTrigger in Htrig.
      destruct (fm_description (parsed_data parsed)) as [d|];
        [destruct (Js.truthy d)|];
        (destruct (fm_trigger (parsed_data parsed)) as [t|];
         [destruct (Js.truthy t)|]);
        destruct (truthyGlob (fm_glob (parsed_data parsed)));
        cbn; try done;
        by apply qoderTrigger_keeps_pattern.
  - intros Halways He. rewrite bool_decide_eq_true_2 by done.
    apply list_elem_of_In in He. cbn in He.
    destruct He as [<-|[<-|[<-|[]]]]; reflexivity.
Qed.

(** C3, as amended.  For Cursor, Windsurf (without [filesToApplyRule]),
    VSCode and Trae, a [globs] field given as a non-empty string becomes
    the one-element pattern list holding that string unchanged, commas
    included, and a non-empty list is taken over as it is. *)
Theorem parseRuleContent_globs_verbatim (e : EditorType)
    (name content filePath : string) (parsed : Parsed) :
  e ∈ [cursor; windsurf; vscode; trae] →
  matter host content = Some parsed →
  Js.truthy (default "" (fm_filesToApplyRule (parsed_data parsed))) = false →
  (∀ s, fm_globs (parsed_data parsed) = Some (GlobString s) → s ≠ "" →
        patterns (parseRuleContent host e name content filePath) = Some [s]) ∧
  (∀ l, fm_globs (parsed_data parsed) = Some (GlobList l) → l ≠ [] →
        patterns (parseRuleContent host e name content filePath) = Some l).
Proof.
  intros He Hparsed Hfiles. apply list_elem_of_In in He. cbn in He.
  assert (hasYamlFrontmatter (EDITOR_CONFIGS e) = true) as Hyaml
    by (destruct He as [<-|[<-|[<-|[<-|[]]]]]; reflexivity).
  unfold parseRuleContent. rewrite Hyaml, Hparsed. unfold readFrontmatter.
  split.
  - intros s Hs Hne. rewrite Hs. destruct s as [|c s]; [done|].
    destruct He as [<-|[<-|[<-|[<-|[]]]]]; cbn;
      destruct (bool_decide (fm_alwaysApply _ = _)); cbn; try done;
      (destruct (fm_filesToApplyRule _) as [f|]; cbn in *;
       [rewrite Hfiles|]; done).
  - intros l Hl Hne. rewrite Hl. destruct l as [|x l]; [done|].
    destruct He as [<-|[<-|[<-|[<-|[]]]]]; cbn;
      destruct (bool_decide (fm_alwaysApply _ = _)); cbn; try done;
      (destruct (fm_filesToApplyRule _) as [f|]; cbn in *;
       [rewrite Hfiles|]; done).
Qed.

End Parsing.

(** C2, the claim as stated fails: a Cursor file whose front matter has the
    glob list [lib/**] and [alwaysApply: true], and no trigger, parses to a
    rule of type [always]. *)
Lemma globs_with_alwaysApply_is_always :
  let rule := Parsers.parseRuleContent Fixtures.host cursor "style"
                Fixtures.globsAndAlways "/proj/.cursor/rules/style.mdc" in
  hasYamlFrontmatter (EDITOR_CONFIGS cursor) = true ∧
  (∃ parsed, matter Fixtures.host Fixtures.globsAndAlways = Some parsed ∧
             fm_globs (parsed_data parsed) = Some (GlobList ["lib/**"]) ∧
             fm_trigger (parsed_data parsed) = None ∧
             fm_alwaysApply (parsed_data parsed) = Some true) ∧
  type rule = always ∧
  Converters.isPatternType (type rule) = false ∧
  patterns rule = Some ["lib/**"].
Proof.
  cbv zeta. split; [reflexivity|]. split; [|by vm_compute].
  eexists. split; [vm_compute; reflexivity|]. by vm_compute.
Qed.

Lemma parseRuleContent_globs_activation_witness :
  Converters.isPatternType
    (type (Parsers.parseRuleContent Fixtures.host cursor "style"
             Fixtures.globsOnly "/proj/.cursor/rules/style.mdc")) = true ∧
  type (Parsers.parseRuleContent Fixtures.host cursor "style"
          Fixtures.globsAndAlways "/proj/.cursor/rules/style.mdc") = always.
Proof.
  split.
  - eapply (parseRuleContent_globs_activation Fixtures.host cursor "style"
              Fixtures.globsOnly).
    + reflexivity.
    + vm_compute. reflexivity.
    + reflexivity.
    + discriminate.
    + discriminate.
  - eapply (parseRuleContent_globs_activation Fixtures.host cursor "style"
              Fixtures.globsAndAlways).
    + reflexivity.
    + vm_compute. reflexivity.
    + reflexivity.
    + discriminate.
    + reflexivity.
    + apply (bool_decide_unpack _). vm_compute. exact I.
Defined.

(** C3, the claim as stated fails: the comma-separated string is kept as
    one pattern, the list gives two. *)
Lemma comma_string_differs_from_list :
  patterns (Parsers.parseRuleContent Fixtures.host cursor "ts"
              Fixtures.globsAsString "/proj/.cursor/rules/ts.mdc")
  = Some ["*.ts, *.tsx"] ∧
  patterns (Parsers.parseRuleContent Fixtures.host cursor "ts"
              Fixtures.globsAsList "/proj/.cursor/rules/ts.mdc")
  = Some ["*.ts"; "*.tsx"] ∧
  patterns (Parsers.parseRuleContent Fixtures.host cursor "ts"
              Fixtures.globsAsString "/proj/.cursor/rules/ts.mdc")
  ≠ patterns (Parsers.parseRuleContent Fixtures.host cursor "ts"
                Fixtures.globsAsList "/proj/.cursor/rules/ts.mdc").
Proof. by vm_compute. Qed.

Lemma parseRuleContent_globs_verbatim_witness :
  patterns (Parsers.parseRuleContent Fixtures.host cursor "ts"
              Fixtures.globsAsString "/proj/.cursor/rules/ts.mdc")
  = Some ["*.ts, *.tsx"] ∧
  patterns (Parsers.parseRuleContent Fixtures.host cursor "ts"
              Fixtures.globsAsList "/proj/.cursor/rules/ts.mdc")
  = Some ["*.ts"; "*.tsx"].
Proof.
  assert (cursor ∈ [cursor; windsurf; vscode; trae]) as Hin
    by (apply (bool_decide_unpack _); vm_compute; exact I).
  pose (asString := mkParsed "Use strict types"
          (mkFrontmatter None (Some (GlobString "*.ts, *.tsx")) None None
                         None None)).
  pose (asList := mkParsed "Use strict types"
          (mkFrontmatter None (Some (GlobList ["*.ts"; "*.tsx"])) None None
                         None None)).
  assert (matter Fixtures.host Fixtures.globsAsString = Some asString) as Hs
    by (vm_compute; reflexivity).
  assert (matter Fixtures.host Fixtures.globsAsList = Some asList) as Hl
    by (vm_compute; reflexivity).
  split.
  - apply (proj1 (parseRuleContent_globs_verbatim Fixtures.host cursor "ts"
                    Fixtures.globsAsString "/proj/.cursor/rules/ts.mdc"
                    asString Hin Hs eq_refl) "*.ts, *.tsx" eq_refl).
    discriminate.
  - apply (proj2 (parseRuleContent_globs_verbatim Fixtures.host cursor "ts"
                    Fixtures.globsAsList "/proj/.cursor/rules/ts.mdc"
                    asList Hin Hl eq_refl) ["*.ts"; "*.tsx"] eq_refl).
    discriminate.
Defined.

(** ** Conversion *)

Section Conversion.

Import Converters.

Context (host : Host).

(** *** The loop over the targets *)

Lemma convertEach_app (rules : list Rule) (ts1 ts2 : list string)
    (out : string) (res : ConversionResult) (d : Disk) :
  convertEach host rules (ts1 ++ ts2) out res d =
  convertEach host rules ts2 out
    (convertEach host rules ts1 out res d).1
    (convertEach host rules ts1 out res d).2.
Proof.
  revert res d. induction ts1 as [|t ts1 IH]; intros res d; cbn; [done|].
  destruct (getEditorByDisplayName t) as [e|]; [|apply IH].
  destruct (convertToEditor host rules e out d) as [[written|m] d'];
    apply IH.
Qed.

Lemma convertEach_errors_kept (rules : list Rule) (ts : list string)
    (out : string) (res : ConversionResult) (d : Disk) (msg : string) :
  msg ∈ errors res →
  msg ∈ errors (convertEach host rules ts out res d).1.
Proof.
  revert res d. induction ts as [|t ts IH]; intros res d Hin; cbn; [done|].
  destruct (getEditorByDisplayName t) as [e|].
  - destruct (convertToEditor host rules e out d) as [[written|m] d'];
      apply IH; cbn; set_solver.
  - apply IH; cbn; set_solver.
Qed.

Lemma convertEach_failure_kept (rules : list Rule) (ts : list string)
    (out : string) (res : ConversionResult) (d : Disk) :
  success res = false →
  success (convertEach host rules ts out res d).1 = false.
Proof.
  revert res d. induction ts as [|t ts IH]; intros res d Hf; cbn; [done|].
  destruct (getEditorByDisplayName t) as [e|].
  - destruct (convertToEditor host rules e out d) as [[written|m] d'];
      by apply IH.
  - by apply IH.
Qed.

Lemma convertEach_outputs_kept (rules : list Rule) (ts : list string)
    (out : string) (res : ConversionResult) (d : Disk) (file : string) :
  file ∈ outputFiles res →
  file ∈ outputFiles (convertEach host rules ts out res d).1.
Proof.
  revert res d. induction ts as [|t ts IH]; intros res d Hin; cbn; [done|].
  destruct (getEditorByDisplayName t) as [e|].
  - destruct (convertToEditor host rules e out d) as [[written|m] d'];
      apply IH; cbn; set_solver.
  - apply IH; cbn; set_solver.
Qed.

(** C6.  Wherever a target [t] stands in the list, the run goes on with
    the targets after it.  An unknown name adds [Unknown editor: t] and
    changes nothing else; a failing serializer adds its message and
    clears the success flag; a successful one adds its files.  The
    message, the cleared flag and the files are still there at the end
    of the run. *)
Theorem convertRules_processes_every_target (rules : list Rule)
    (ts1 : list string) (t : string) (ts2 : list string) (out : string)
    (d : Disk) :
  let before := convertRules host rules ts1 out d in
  let after := convertRules host rules (ts1 ++ t :: ts2) out d in
  (getEditorByDisplayName t = None →
   after =
     convertEach host rules ts2 out
       (mkConversionResult (success before.1) (converted before.1)
          (skipped before.1)
          (errors before.1 ++ ["Unknown editor: " +:+ t])
          (outputFiles before.1))
       before.2 ∧
   ("Unknown editor: " +:+ t) ∈ errors after.1) ∧
  (∀ e m d',
     getEditorByDisplayName t = Some e →
     convertToEditor host rules e out before.2 = (Throw m, d') →
     after =
       convertEach host rules ts2 out
         (mkConversionResult false (converted before.1) (skipped before.1)
            (errors before.1 ++
             ["Failed to convert to " +:+ t +:+ ": " +:+ showError m])
            (outputFiles before.1))
         d' ∧
     success after.1 = false ∧
     ("Failed to convert to " +:+ t +:+ ": " +:+ showError m)
       ∈ errors after.1) ∧
  (∀ e written d',
     getEditorByDisplayName t = Some e →
     convertToEditor host rules e out before.2 = (Ok written, d') →
     after =
       convertEach host rules ts2 out
         (mkConversionResult (success before.1)
            (converted before.1 + length written) (skipped before.1)
            (errors before.1) (outputFiles before.1 ++ written))
         d' ∧
     ∀ file, file ∈ written → file ∈ outputFiles after.1).
Proof.
  cbv zeta. unfold convertRules. rewrite convertEach_app.
  set (before := convertEach host rules ts1 out _ d).
  split; [|split].
  - intros Hnone. cbn [convertEach]. rewrite Hnone. split; [done|].
    apply convertEach_errors_kept. cbn. set_solver.
  - intros e m d' He Hthrow. cbn [convertEach]. rewrite He, Hthrow.
    split; [done|]. split.
    + by apply convertEach_failure_kept.
    + apply convertEach_errors_kept. cbn. set_solver.
  - intros e written d' He Hok. cbn [convertEach]. rewrite He, Hok.
    split; [done|]. intros file Hfile.
    apply convertEach_outputs_kept. cbn. set_solver.
Qed.

(** *** One target *)

Lemma writeEach_length (rules : list Rule) (e : EditorType)
    (outputDir : string) (acc : list string) (d : Disk)
    (written : list string) (d' : Disk) :
  writeEach host rules e outputDir acc d = (Ok written, d') →
  length written = length acc + length rules.
Proof.
  revert acc d. induction rules as [|rule rules IH]; intros acc d H.
  - cbn in H. injection H as <- <-. cbn. lia.
  - cbn [writeEach] in H.
    destruct (Fs.writeFile _ _ d) as [[[]|m] d1]; [|discriminate H].
    apply IH in H. rewrite H, length_app. cbn. lia.
Qed.

Lemma convertToEditor_length (rules : list Rule) (e : EditorType)
    (out : string) (d : Disk) (written : list string) (d' : Disk) :
  convertToEditor host rules e out d = (Ok written, d') →
  length written =
    if Parsers.isSingleFileEditor e then 1 else length rules.
Proof.
  unfold convertToEditor, convertToSingleFile.
  destruct (Parsers.isSingleFileEditor e).
  - destruct (Fs.writeFile _ _ d) as [[[]|m] d1]; [|discriminate].
    by intros [= <- <-].
  - destruct (if Fs.existsSync d _ then _ else _) as [[[]|m] d1];
      [|discriminate].
    intros H. by apply writeEach_length in H.
Qed.

(** C9, as amended.  After a run on one known target without a failure,
    [converted] is the number of files written: the number of rules for
    an editor with one file per rule, and 1 for an editor with one
    shared file, however many rules there are. *)
Theorem convertRules_converted_counts_files (rules : list Rule)
    (t : string) (e : EditorType) (out : string) (d : Disk) :
  getEditorByDisplayName t = Some e →
  success (convertRules host rules [t] out d).1 = true →
  converted (convertRules host rules [t] out d).1 =
    (if Parsers.isSingleFileEditor e then 1 else length rules) ∧
  converted (convertRules host rules [t] out d).1 =
    length (outputFiles (convertRules host rules [t] out d).1).
Proof.
  intros He. unfold convertRules. cbn [convertEach]. rewrite He.
  destruct (convertToEditor host rules e out d) as [[written|m] d'] eqn:Hc;
    cbn; [|discriminate].
  intros _. by rewrite (convertToEditor_length _ _ _ _ _ _ Hc).
Qed.

(** *** One shared file *)

Lemma writeFile_twice (p text : string) (d : Disk) :
  files (Fs.writeFile p text (Fs.writeFile p text d).2).2 =
    files (Fs.writeFile p text d).2 ∧
  (Fs.writeFile p text (Fs.writeFile p text d).2).1 =
    (Fs.writeFile p text d).1.
Proof.
  unfold Fs.writeFile. destruct (writeError d p) as [m|] eqn:Hw; cbn.
  - by rewrite Hw.
  - rewrite Hw. cbn. by rewrite insert_insert_eq.
Qed.

(** C7.  Converting the same rules to the same single-file editor a
    second time leaves every file as the first run left it and gives the
    same result; a successful run writes the shared file, and only it,
    exactly once, with the header followed by one section per rule. *)
Theorem convertRules_single_file_idempotent (rules : list Rule)
    (t : string) (e : EditorType) (out : string) (d : Disk) :
  getEditorByDisplayName t = Some e →
  Parsers.isSingleFileEditor e = true →
  let first := convertRules host rules [t] out d in
  let second := convertRules host rules [t] out first.2 in
  files second.2 = files first.2 ∧
  second.1 = first.1 ∧
  (success first.1 = true →
   ∃ p, outputFiles first.1 = [p] ∧
        writes first.2 = writes d ++ [p] ∧
        writes second.2 = writes first.2 ++ [p] ∧
        files first.2 !! p =
          Some (singleFileHeader e +:+ singleFileSections e rules)).
Proof.
  intros He Hsingle. cbv zeta. unfold convertRules. cbn [convertEach].
  rewrite He. unfold convertToEditor. rewrite Hsingle.
  unfold convertToSingleFile.
  set (p := path_join host out _). set (text := _ +:+ _).
  pose proof (writeFile_twice p text d) as [Hfiles Hres].
  unfold Fs.writeFile in *.
  destruct (writeError d p) as [m|] eqn:Hw; cbn in *.
  - rewrite Hw. cbn. split; [done|]. split; [done|]. discriminate.
  - rewrite Hw in *. cbn in *. split; [done|]. split; [done|].
    intros _. exists p. by rewrite lookup_insert_eq.
Qed.

End Conversion.

Lemma convertRules_processes_every_target_witness :
  let after :=
    Converters.convertRules Fixtures.host
      [Fixtures.styleRule; Fixtures.testsRule] ["Nope"; "Cursor"; "Cline"]
      "." Fixtures.lockedCursorDisk in
  ("Unknown editor: Nope") ∈ errors after.1 ∧
  success after.1 = false ∧
  ("Failed to convert to Cursor: Error: Failed to convert rule C++ Rules: Error: EACCES: permission denied, open '.cursor/rules/c---rules.mdc'")
    ∈ errors after.1 ∧
  ".clinerules/tests.md" ∈ outputFiles after.1.
Proof.
  cbv zeta. split; [|split; [|split]].
  - apply (proj1 (convertRules_processes_every_target Fixtures.host
                    [Fixtures.styleRule; Fixtures.testsRule] [] "Nope"
                    ["Cursor"; "Cline"] "." Fixtures.lockedCursorDisk)).
    reflexivity.
  - eapply (proj1 (proj2 (convertRules_processes_every_target Fixtures.host
                    [Fixtures.styleRule; Fixtures.testsRule] ["Nope"] "Cursor"
                    ["Cline"] "." Fixtures.lockedCursorDisk)) cursor
             "Failed to convert rule C++ Rules: Error: EACCES: permission denied, open '.cursor/rules/c---rules.mdc'"
             (Fs.mkdir ".cursor/rules" Fixtures.lockedCursorDisk).2).
    + reflexivity.
    + vm_compute. reflexivity.
  - eapply (proj1 (proj2 (convertRules_processes_every_target Fixtures.host
                    [Fixtures.styleRule; Fixtures.testsRule] ["Nope"] "Cursor"
                    ["Cline"] "." Fixtures.lockedCursorDisk)) cursor
             "Failed to convert rule C++ Rules: Error: EACCES: permission denied, open '.cursor/rules/c---rules.mdc'"
             (Fs.mkdir ".cursor/rules" Fixtures.lockedCursorDisk).2).
    + reflexivity.
    + vm_compute. reflexivity.
  - eapply (proj2 (proj2 (convertRules_processes_every_target Fixtures.host
                    [Fixtures.styleRule; Fixtures.testsRule] ["Nope"; "Cursor"]
                    "Cline" [] "." Fixtures.lockedCursorDisk)) cline
             [".clinerules/c---rules.md"; ".clinerules/tests.md"]).
    + reflexivity.
    + vm_compute. reflexivity.
    + apply (bool_decide_unpack _). vm_compute. exact I.
Defined.

(** C9, the claim as stated fails: two rules converted without error to
    Codex CLI, whose rules share [AGENTS.md], give [converted = 1]. *)
Lemma two_rules_one_shared_file_counts_one :
  let res :=
    (Converters.convertRules Fixtures.host
       [Fixtures.styleRule; Fixtures.testsRule] ["Codex CLI"] "."
       Fixtures.emptyDisk).1 in
  getEditorByDisplayName "Codex CLI" = Some codex ∧
  success res = true ∧ errors res = [] ∧
  outputFiles res = ["AGENTS.md"] ∧
  converted res = 1 ∧
  converted res ≠ length [Fixtures.styleRule; Fixtures.testsRule].
Proof. by vm_compute. Qed.

Lemma convertRules_converted_counts_files_witness :
  converted (Converters.convertRules Fixtures.host
               [Fixtures.styleRule; Fixtures.testsRule] ["Cline"] "."
               Fixtures.emptyDisk).1 = 2 ∧
  converted (Converters.convertRules Fixtures.host
               [Fixtures.styleRule; Fixtures.testsRule] ["Codex CLI"] "."
               Fixtures.emptyDisk).1 = 1.
Proof.
  split.
  - apply (convertRules_converted_counts_files Fixtures.host
             [Fixtures.styleRule; Fixtures.testsRule] "Cline" cline "."
             Fixtures.emptyDisk).
    + reflexivity.
    + vm_compute. reflexivity.
  - apply (convertRules_converted_counts_files Fixtures.host
             [Fixtures.styleRule; Fixtures.testsRule] "Codex CLI" codex "."
             Fixtures.emptyDisk).
    + reflexivity.
    + vm_compute. reflexivity.
Defined.

Lemma convertRules_single_file_idempotent_witness :
  let first :=
    Converters.convertRules Fixtures.host
      [Fixtures.styleRule; Fixtures.testsRule] ["Codex CLI"] "."
      Fixtures.emptyDisk in
  let second :=
    Converters.convertRules Fixtures.host
      [Fixtures.styleRule; Fixtures.testsRule] ["Codex CLI"] "." first.2 in
  files second.2 = files first.2 ∧
  second.1 = first.1 ∧
  ∃ p, outputFiles first.1 = [p] ∧
       writes first.2 = writes Fixtures.emptyDisk ++ [p] ∧
       writes second.2 = writes first.2 ++ [p] ∧
       files first.2 !! p =
         Some (Converters.singleFileHeader codex +:+
               Converters.singleFileSections codex
                 [Fixtures.styleRule; Fixtures.testsRule]).
Proof.
  destruct (convertRules_single_file_idempotent Fixtures.host
              [Fixtures.styleRule; Fixtures.testsRule] "Codex CLI" codex "."
              Fixtures.emptyDisk eq_refl eq_refl) as (Hfiles & Hres & Hok).
  split; [exact Hfiles|]. split; [exact Hres|].
  apply Hok. vm_compute. reflexivity.
Defined.

(** ** File names *)

Section FileNames.



Lemma prefix_cons (a c : ascii) (p s : string) :
  String.prefix (String a p) (String c s) =
    if ascii_dec a c then String.prefix p s else false.
Proof. reflexivity. Qed.

Lemma includes_cons (c : ascii) (s sub : string) :
  Js.includes (String c s) sub =
    String.prefix sub (String c s) || Js.includes s sub.
Proof. reflexivity. Qed.



(** C4, evaluated on the rule named [C++ Rules]: [generateFileName]
    gives one hyphen per replaced character, three in a row here, where
    the universal converter, which replaces runs, gives one. *)
Theorem generateFileName_hyphen_per_character :
  Converters.generateFileName Fixtures.styleRule cursor = "c---rules.mdc" ∧
  Js.replaceRunsNonAlnum (Js.toLowerCase (name Fixtures.styleRule)) +:+ ".mdc"
    = "c-rules.mdc" ∧
  (Universal.convertToCursor Fixtures.host Fixtures.cppRule
     Fixtures.emptyDisk).1 = Ok [".cursor/rules/c-rules.mdc"] ∧
  (Converters.convertToEditor Fixtures.host [Fixtures.styleRule] cursor "."
     Fixtures.emptyDisk).1 = Ok [".cursor/rules/c---rules.mdc"].
Proof. by vm_compute. Qed.

End FileNames.

(** ** Pattern hints *)

Section PatternHints.

(** Whatever the type, patterns and context of the rule, the text
    [convertToClaudeCode] writes is the previous text of [CLAUDE.md] (or
    the default header) followed by a heading and [rule.content]. *)
Lemma convertToClaudeCode_written (rule : UniversalRule) (d : Disk) :
  writeError d "CLAUDE.md" = None →
  files (Universal.convertToClaudeCode rule d).2 !! "CLAUDE.md" =
    Some (default ("# AI Assistant Guidelines" +:+ nl +:+ nl)
                  (files d !! "CLAUDE.md") +:+
          nl +:+ "## " +:+ u_name rule +:+ nl +:+ nl +:+
          u_content rule +:+ nl).
Proof.
  intros Hw. unfold Universal.convertToClaudeCode, Fs.writeFile.
  rewrite Hw. cbn. rewrite lookup_insert_eq.
  by destruct (files d !! "CLAUDE.md").
Qed.

(** C5, evaluated on a rule of type [pattern] with the pattern
    [src/**/*.ts]: the text written to [CLAUDE.md] by either converter
    holds the rule body without the line naming the patterns. *)
Theorem claude_code_output_lacks_pattern_hint :
  let universal :=
    Universal.convertToClaudeCode Fixtures.patternRule Fixtures.emptyDisk in
  let batch :=
    Converters.convertRules Fixtures.host [Fixtures.testsRule]
      ["Claude Code"] "." Fixtures.emptyDisk in
  universal.1 = Ok ["CLAUDE.md"] ∧
  files universal.2 !! "CLAUDE.md" =
    Some (Fixtures.lines ["# AI Assistant Guidelines"; ""; ""; "## ts"; "";
                          "Use strict types"; ""]) ∧
  success batch.1 = true ∧
  files batch.2 !! "CLAUDE.md" =
    Some (Fixtures.lines
            ["# CLAUDE.md"; "";
             "This file provides guidance to Claude Code when working with code in this repository.";
             ""; "## tests"; ""; "Write a test first"]) ∧
  (∀ text, files universal.2 !! "CLAUDE.md" = Some text ∨
           files batch.2 !! "CLAUDE.md" = Some text →
           Js.includes text "src/**/*.ts" = false).
Proof.
  cbv zeta. repeat split; try (vm_compute; reflexivity).
  intros text [H|H]; vm_compute in H; injection H as <-;
    vm_compute; reflexivity.
Qed.

End PatternHints.

(** ** The regular expressions on sample text *)

Section RegularExpressions.

Import Parsers.

Example splitSections_agents :
  splitSections Fixtures.agentsFile =
    [Fixtures.lines ["# Project Agent Rules"; ""; ""]; "style";
     Fixtures.lines [""; ""; "Prefer small functions"; ""; ""]; "tests";
     Fixtures.lines [""; ""; "Write a test first"]].
Proof. reflexivity. Qed.

Example splitSections_lazy_name :
  splitSections (Fixtures.lines ["---- a ---- b ----"; "x"; "----  ----"]) =
    [""; "a ---- b"; Fixtures.lines [""; "x"; "----  ----"]].
Proof. reflexivity. Qed.

Example titleMatch_first_heading :
  titleMatch (Fixtures.lines ["intro"; "#nospace"; "#   Title here"; "more"])
    = Some "Title here".
Proof. reflexivity. Qed.

Example titleMatch_across_blank_lines :
  titleMatch (Fixtures.lines ["#"; "  "; "foo bar"; "baz"]) = Some "foo bar".
Proof. reflexivity. Qed.

Example titleMatch_backtracks :
  titleMatch "#  " = Some " " ∧ titleMatch "# " = None.
Proof. split; reflexivity. Qed.

Example patternMatches_sample :
  patternMatches "use *.ts and **/*.tsx in src/** or src/ and *.9 lib/**/*.js"
    = Some ["*.ts"; "**/*.tsx"; "src/**"; "**/*.js"].
Proof. reflexivity. Qed.

Example fileNameOf_samples :
  fileNameOf "/proj/.cursor/rules/typescript.mdc" = "typescript" ∧
  fileNameOf "/proj/.cursorrules" = "unnamed" ∧
  fileNameOf "/proj/a.b.c" = "a.b" ∧
  fileNameOf "/proj/a." = "a.".
Proof. repeat split; reflexivity. Qed.

Example trim_sample :
  Js.trim (Fixtures.lines ["  "; " a b "; " "]) = "a b".
Proof. reflexivity. Qed.

Example detectAllRules_sample :
  (λ r, (editor r, ruleCount r, type <$> rules r, location r)) <$>
    match detectAllRules Fixtures.host Fixtures.project "/proj" with
    | Ok results => results
    | Throw _ => []
    end =
  [(codex, 2, [always; always], "/proj/AGENTS.md");
   (cursor, 1, [always], "/proj/.cursor/rules")].
Proof. by vm_compute. Qed.

End RegularExpressions.

(** ** Strings as lists of code units *)

Section StringFacts.

Local Abbreviation chars := String.list_ascii_of_string.

Lemma chars_inj (s t : string) : chars s = chars t → s = t.
Proof.
  intros H. rewrite <- (String.string_of_list_ascii_of_string s),
    <- (String.string_of_list_ascii_of_string t). by rewrite H.
Qed.

Lemma chars_app (s t : string) : chars (s +:+ t) = chars s ++ chars t.
Proof.
  induction s as [|c s IH]; [done|].
  change (String c s +:+ t) with (String c (s +:+ t)). cbn. by rewrite IH.
Qed.

Lemma chars_rev_app (s t : string) :
  chars (String.rev_app s t) = reverse (chars s) ++ chars t.
Proof.
  revert t. induction s as [|c s IH]; intros t; [done|].
  cbn [String.rev_app String.list_ascii_of_string].
  rewrite IH, reverse_cons, <- app_assoc. done.
Qed.

Lemma chars_rev (s : string) : chars (String.rev s) = reverse (chars s).
Proof. unfold String.rev. by rewrite chars_rev_app, app_nil_r. Qed.

Lemma string_app_assoc (s t u : string) : (s +:+ t) +:+ u = s +:+ t +:+ u.
Proof. apply chars_inj. by rewrite !chars_app, app_assoc. Qed.

Lemma string_app_nil_r (s : string) : s +:+ "" = s.
Proof. apply chars_inj. by rewrite chars_app, app_nil_r. Qed.

Lemma string_length_chars (s : string) : String.length s = length (chars s).
Proof. induction s as [|c s IH]; cbn; [done|]. by rewrite IH. Qed.

Lemma string_length_app (s t : string) :
  String.length (s +:+ t) = String.length s + String.length t.
Proof. by rewrite !string_length_chars, chars_app, length_app. Qed.

Lemma chars_trimStart (s : string) :
  chars (Js.trimStart s) = dropWhileList Js.isSpace (chars s).
Proof.
  induction s as [|c s IH]; cbn; [done|]. by destruct (Js.isSpace c).
Qed.

Lemma chars_trim (s : string) : chars (Js.trim s) = trimList (chars s).
Proof.
  unfold Js.trim, trimList.
  by rewrite chars_rev, chars_trimStart, chars_rev, chars_trimStart.
Qed.

Lemma dropWhileList_all {A} (p : A → bool) (l : list A) :
  forallb p l = true → dropWhileList p l = [].
Proof.
  induction l as [|x l IH]; cbn; [done|].
  destruct (p x); [exact IH|done].
Qed.

Lemma dropWhileList_app {A} (p : A → bool) (l r : list A) :
  forallb p l = true → dropWhileList p (l ++ r) = dropWhileList p r.
Proof.
  induction l as [|x l IH]; cbn; [done|].
  destruct (p x); [exact IH|done].
Qed.

Lemma dropWhileList_keep {A} (p : A → bool) (x : A) (l : list A) :
  p x = false → dropWhileList p (x :: l) = x :: l.
Proof. intros H. cbn. by rewrite H. Qed.

Lemma forallb_reverse {A} (p : A → bool) (l : list A) :
  forallb p (reverse l) = forallb p l.
Proof.
  induction l as [|x l IH]; [done|].
  rewrite reverse_cons, forallb_app, IH. cbn. by destruct (p x), (forallb p l).
Qed.

(** A list that starts and ends with elements outside [p] is what trimming
    by [p] leaves of it, whatever run of [p] elements surrounds it. *)
Lemma trim_core {A} (p : A → bool) (before after : list A) (x y : A)
    (mid : list A) :
  forallb p before = true → forallb p after = true →
  p x = false → p y = false →
  reverse (dropWhileList p
             (reverse (dropWhileList p
                         (before ++ (x :: mid ++ [y]) ++ after))))
  = x :: mid ++ [y].
Proof.
  intros Hb Ha Hx Hy.
  rewrite dropWhileList_app by done. cbn [app].
  rewrite dropWhileList_keep by done.
  rewrite reverse_cons, !reverse_app, reverse_singleton.
  rewrite <- !app_assoc.
  rewrite dropWhileList_app by (by rewrite forallb_reverse).
  cbn [app]. rewrite dropWhileList_keep by done.
  rewrite reverse_cons, reverse_app, !reverse_involutive. done.
Qed.

Lemma dropWhileList_head {A} (p : A → bool) (l : list A) :
  dropWhileList p l = [] ∨
  ∃ x l', dropWhileList p l = x :: l' ∧ p x = false.
Proof.
  induction l as [|x l IH]; cbn; [by left|].
  destruct (p x) eqn:Hx; [exact IH|]. right. by exists x, l.
Qed.

Lemma dropWhileList_snoc {A} (p : A → bool) (l : list A) (x : A) :
  p x = false → ∃ t, dropWhileList p (l ++ [x]) = t ++ [x].
Proof.
  intros Hx. induction l as [|y l IH]; cbn.
  - rewrite Hx. by exists [].
  - destruct (p y); [exact IH|]. by exists (y :: l).
Qed.

(** What trimming leaves is empty, one element outside [p], or a list
    whose first and last elements are outside [p]. *)
Lemma trim_shape {A} (p : A → bool) (l : list A) :
  let t := reverse (dropWhileList p (reverse (dropWhileList p l))) in
  t = [] ∨ (∃ x, t = [x] ∧ p x = false) ∨
  (∃ x mid y, t = x :: mid ++ [y] ∧ p x = false ∧ p y = false).
Proof.
  cbv zeta. destruct (dropWhileList_head p l) as [->|(x & l' & -> & Hx)].
  - by left.
  - right. rewrite reverse_cons.
    destruct (dropWhileList_snoc p (reverse l') x Hx) as [t Ht].
    destruct (dropWhileList_head p (reverse l' ++ [x]))
      as [Hnil|(y & r & Hr & Hy)].
    { rewrite Ht in Hnil. by destruct t. }
    rewrite Ht in Hr. rewrite Ht.
    destruct t as [|z t]; cbn in Hr.
    + left. exists x. done.
    + right. injection Hr as -> <-. exists x, (reverse t), y.
      by rewrite reverse_app, reverse_singleton, reverse_cons.
Qed.

Lemma trimList_fixed (x y : ascii) (mid : list ascii) :
  Js.isSpace x = false → Js.isSpace y = false →
  trimList (x :: mid ++ [y]) = x :: mid ++ [y].
Proof.
  intros Hx Hy.
  pose proof (trim_core Js.isSpace [] [] x y mid eq_refl eq_refl Hx Hy) as H.
  cbn [app] in H. by rewrite app_nil_r in H.
Qed.

Lemma trimList_idempotent (l : list ascii) : trimList (trimList l) = trimList l.
Proof.
  destruct (trim_shape Js.isSpace l)
    as [H|[(x & H & Hx)|(x & mid & y & H & Hx & Hy)]];
    fold (trimList l) in H; rewrite H.
  - done.
  - unfold trimList. cbn. rewrite Hx. cbn. by rewrite Hx.
  - by apply trimList_fixed.
Qed.

Lemma trim_idempotent (s : string) : Js.trim (Js.trim s) = Js.trim s.
Proof. apply chars_inj. by rewrite !chars_trim, trimList_idempotent. Qed.

Lemma code_slash (c : ascii) : (Js.code c =? 47)%N = true ↔ c = "/"%char.
Proof.
  unfold Js.code. rewrite N.eqb_eq. split; [|by intros ->].
  intros H. rewrite <- (ascii_N_embedding c), H. done.
Qed.

Lemma lastSegmentGo_no_slash (acc s : string) :
  "/"%char ∉ chars acc → "/"%char ∉ chars (Js.lastSegmentGo acc s).
Proof.
  revert acc. induction s as [|c s IH]; intros acc Hacc; cbn.
  - rewrite chars_rev. by rewrite elem_of_reverse.
  - destruct (Js.code c =? 47)%N eqn:Hc.
    + apply IH. cbn. apply not_elem_of_nil.
    + apply IH. cbn. rewrite elem_of_cons. intros [<-|?]; [|done].
      by rewrite (proj2 (code_slash _) eq_refl) in Hc.
Qed.

Lemma stripExtension_chars (s : string) (c : ascii) :
  c ∈ chars (Js.stripExtension s) → c ∈ chars s.
Proof.
  induction s as [|d s IH]; cbn; [done|].
  destruct (_ && _ && _); cbn.
  - by intros ?%elem_of_nil.
  - rewrite !elem_of_cons. intros [->|?]; [by left|right; by apply IH].
Qed.

End StringFacts.

(** ** More on parsing *)

Section ParsingFacts.

Import Parsers.

Context (host : Host).

Lemma fileNameOf_nonempty (filePath : string) : fileNameOf filePath ≠ "".
Proof.
  unfold fileNameOf, Js.orElse.
  by destruct (Js.stripExtension (Js.lastSegment filePath)).
Qed.

(** X1.  The rule name taken from a file path is never empty and holds no
    slash. *)
Theorem fileNameOf_nonempty_no_slash (filePath : string) :
  fileNameOf filePath ≠ "" ∧
  "/"%char ∉ String.list_ascii_of_string (fileNameOf filePath).
Proof.
  unfold fileNameOf, Js.orElse.
  destruct (Js.stripExtension (Js.lastSegment filePath)) as [|c s] eqn:Hs.
  - split; [done|]. apply (bool_decide_unpack _). vm_compute. exact I.
  - split; [done|]. rewrite <- Hs. intros Hin.
    apply stripExtension_chars in Hin. revert Hin.
    apply lastSegmentGo_no_slash. cbn. apply not_elem_of_nil.
Qed.

(** X2.  The body of a parsed rule is trimmed: trimming it again changes
    nothing, so it neither starts nor ends with white space. *)
Theorem parseRuleContent_body_trimmed (e : EditorType)
    (name text filePath : string) :
  Js.trim (content (parseRuleContent host e name text filePath)) =
    content (parseRuleContent host e name text filePath).
Proof. unfold parseRuleContent. cbn. apply trim_idempotent. Qed.

(** X3.  For an editor without front matter support (Cline, Codex CLI,
    Claude Code, QwenCoder) the parsed rule is of type [always], has no
    patterns, and its body is the whole text trimmed. *)
Theorem parseRuleContent_without_frontmatter (e : EditorType)
    (name text filePath : string) :
  hasYamlFrontmatter (EDITOR_CONFIGS e) = false →
  type (parseRuleContent host e name text filePath) = always ∧
  patterns (parseRuleContent host e name text filePath) = None ∧
  content (parseRuleContent host e name text filePath) = Js.trim text.
Proof.
  intros Hyaml. unfold parseRuleContent. rewrite Hyaml.
  destruct e; try discriminate Hyaml; cbn -[titleMatch Js.includes].
  - by destruct (titleMatch text).
  - by destruct (Js.includes filePath "AGENTS.md").
  - by destruct (Js.includes filePath "CLAUDE.md").
  - done.
Qed.

(** X4.  Front matter that gray-matter rejects is not fatal: the rule is
    built from the whole text, trimmed, with an empty description, and
    for every editor but Qoder it is of type [always] without patterns. *)
Theorem parseRuleContent_malformed_frontmatter (e : EditorType)
    (name text filePath : string) :
  hasYamlFrontmatter (EDITOR_CONFIGS e) = true →
  matter host text = None →
  content (parseRuleContent host e name text filePath) = Js.trim text ∧
  description (parseRuleContent host e name text filePath) = Some "" ∧
  (e ≠ qoder →
   type (parseRuleContent host e name text filePath) = always ∧
   patterns (parseRuleContent host e name text filePath) = None).
Proof.
  intros Hyaml Hnone. unfold parseRuleContent. rewrite Hyaml, Hnone.
  destruct e; try discriminate Hyaml;
    cbn -[patternMatches Js.includes]; try done.
  destruct (_ || _); [|done].
  by destruct (patternMatches text).
Qed.

(** X5.  A Qoder file whose raw text holds [*.] or [src/] anywhere is
    typed [specific-files], whatever its front matter says (a [manual]
    trigger included), and the patterns found in the text, if any,
    replace those of the front matter. *)
Theorem parseRuleContent_qoder_text_override (name text filePath : string) :
  Js.includes text "*." || Js.includes text "src/" = true →
  type (parseRuleContent host qoder name text filePath) = specific_files ∧
  (∀ found, patternMatches text = Some found →
            patterns (parseRuleContent host qoder name text filePath)
            = Some found).
Proof.
  intros Hinc. unfold parseRuleContent, editorSpecific. rewrite Hinc.
  split.
  - by destruct (patternMatches text).
  - intros found Hfound. rewrite Hfound. cbn.
    unfold patternMatches in Hfound. destruct found; [|done].
    by destruct (patternMatchesGo 0 text).
Qed.

(** X6.  In a Windsurf file a non-empty [filesToApplyRule] wins over both
    [globs] and [alwaysApply]: the rule is of type [glob-pattern] and its
    only pattern is that field. *)
Theorem parseRuleContent_windsurf_filesToApplyRule
    (name text filePath : string) (parsed : Parsed) (f : string) :
  matter host text = Some parsed →
  fm_filesToApplyRule (parsed_data parsed) = Some f → f ≠ "" →
  type (parseRuleContent host windsurf name text filePath) = glob_pattern ∧
  patterns (parseRuleContent host windsurf name text filePath) = Some [f].
Proof.
  intros Hparsed Hf Hne. unfold parseRuleContent. cbn. rewrite Hparsed.
  unfold readFrontmatter. rewrite Hf. by destruct f.
Qed.

(** X7.  A Qoder trigger written by [mapRuleTypeToQoderTrigger] is one the
    parser knows: reading it back gives [qoderReadBack] of the type, which
    keeps [manual], [model-decision], [always] and [glob-pattern], keeps
    a pattern type a pattern type, and maps to the same trigger again. *)
Theorem qoder_trigger_round_trip (t : RuleType) (st : Locals) :
  ruleType (qoderTrigger (Converters.mapRuleTypeToQoderTrigger t) st)
    = qoderReadBack t ∧
  Converters.mapRuleTypeToQoderTrigger (qoderReadBack t)
    = Converters.mapRuleTypeToQoderTrigger t ∧
  Converters.isPatternType (qoderReadBack t) = Converters.isPatternType t ∧
  (t ∈ [manual; model_decision; always; glob_pattern] → qoderReadBack t = t).
Proof.
  split; [by destruct t|]. split; [by destruct t|]. split; [by destruct t|].
  intros Hin. apply list_elem_of_In in Hin. cbn in Hin.
  by destruct Hin as [<-|[<-|[<-|[<-|[]]]]].
Qed.

(** *** What detection keeps *)

Context (proj : Project).

Lemma parseRuleContent_detected (e : EditorType) (text filePath : string) :
  detectedRule e (parseRuleContent host e (fileNameOf filePath) text filePath).
Proof.
  unfold detectedRule. split; [done|]. split; [apply fileNameOf_nonempty|].
  split; [|split; [apply trim_idempotent|by split]].
  unfold parseRuleContent. cbn [patterns]. by destruct (l_patterns _).
Qed.

Lemma truthy_nonempty (s : string) : Js.truthy s = true → s ≠ "".
Proof. by destruct s. Qed.

Lemma sectionRules_detected (e : EditorType) (filePath : string)
    (sections : list string) :
  Forall (detectedRule e) (sectionRules e filePath sections) ∧
  ∀ x, Forall (detectedRule e) (sectionRules e filePath (x :: sections)).
Proof.
  induction sections as [|c rest [IH1 IH2]].
  - split; [constructor|]. intros x. constructor.
  - split; [apply IH2|]. intros n. cbn [sectionRules].
    destruct (Js.truthy (Js.trim n) && Js.truthy (Js.trim c)) eqn:Ht;
      [|exact IH1].
    apply andb_true_iff in Ht as [Hn Hc].
    constructor; [|exact IH1].
    unfold detectedRule. cbn.
    split; [done|]. split; [by apply truthy_nonempty|].
    split; [done|]. split; [apply trim_idempotent|by split].
Qed.

Lemma parseRuleFile_detected (e : EditorType) (filePath : string) (r : Rule) :
  parseRuleFile host proj e filePath = Some r → detectedRule e r.
Proof.
  unfold parseRuleFile. destruct (readFile proj filePath); [|done].
  intros [= <-]. apply parseRuleContent_detected.
Qed.

Lemma parseRulesFromLocation_detected (e : EditorType) (location : string)
    (found : list Rule) :
  parseRulesFromLocation host proj e location = Ok found →
  Forall (detectedRule e) found.
Proof.
  unfold parseRulesFromLocation.
  destruct (stat proj location) as [[]|]; [| | |done].
  - destruct (isSingleFileEditor e).
    + unfold parseSingleFileWithSections.
      destruct (readFile proj location) as [text|]; [|done]. cbn.
      destruct (_ || _); intros [= <-].
      * apply sectionRules_detected.
      * constructor; [apply parseRuleContent_detected|constructor].
    + intros [= <-].
      destruct (parseRuleFile host proj e location) as [r|] eqn:Hr; cbn;
        [|constructor].
      constructor; [by eapply parseRuleFile_detected|constructor].
  - intros [= <-]. apply Forall_forall. intros r Hr.
    apply list_elem_of_omap in Hr as (file & _ & Hfile).
    by eapply parseRuleFile_detected.
  - intros [= <-]. constructor.
Qed.

Lemma scanLocations_detected (e : EditorType) (p : string)
    (locs : list string) (acc acc' : list Rule * string) :
  Forall (detectedRule e) acc.1 →
  scanLocations host proj e p locs acc = Ok acc' →
  Forall (detectedRule e) acc'.1.
Proof.
  revert acc. induction locs as [|loc locs IH]; intros acc Hacc Hscan.
  - cbn in Hscan. by injection Hscan as <-.
  - cbn [scanLocations] in Hscan.
    destruct (existsSync proj (path_resolve host p loc)); [|by eapply IH].
    destruct (parseRulesFromLocation host proj e (path_resolve host p loc))
      as [found|m] eqn:Hfound; [|done].
    cbn in Hscan. eapply IH; [|exact Hscan]. cbn [fst].
    apply Forall_app. split; [done|].
    by eapply parseRulesFromLocation_detected.
Qed.

(** X8.  Every rule of a detection belongs to the detection's editor, has
    a non-empty name, a trimmed body, a description and metadata, and
    never an empty pattern list. *)
Theorem detectRulesForEditor_rules_wellformed (e : EditorType) (p : string)
    (r : DetectionResult) :
  detectRulesForEditor host proj e p = Ok r →
  Forall (detectedRule e) (rules r).
Proof.
  unfold detectRulesForEditor. intros H.
  destruct (scanLocations host proj e p (locations (EDITOR_CONFIGS e))
              ([], "")) as [acc|] eqn:H1; [|done].
  cbn in H. apply scanLocations_detected in H1; [|constructor].
  destruct (legacyLocations (EDITOR_CONFIGS e)) as [legacy|].
  - destruct (scanLocations host proj e p legacy acc) as [acc'|] eqn:H2;
      [|done].
    cbn in H. injection H as <-. cbn.
    by eapply scanLocations_detected.
  - cbn in H. by injection H as <-.
Qed.

Lemma scanLocations_invariant (e : EditorType) (p : string)
    (locs seen : list string) (acc acc' : list Rule * string) :
  (∀ loc, loc ∈ locs → path_resolve host p loc ≠ "") →
  scanInvariant host proj p seen acc →
  scanLocations host proj e p locs acc = Ok acc' →
  scanInvariant host proj p (seen ++ locs) acc'.
Proof.
  revert seen acc. induction locs as [|loc locs IH];
    intros seen acc Hres Hinv Hscan.
  - cbn in Hscan. injection Hscan as <-. by rewrite app_nil_r.
  - cbn [scanLocations] in Hscan.
    replace (seen ++ loc :: locs) with ((seen ++ [loc]) ++ locs)
      by (by rewrite <- app_assoc).
    assert (∀ l, l ∈ locs → path_resolve host p l ≠ "") as Hres'
      by (intros; apply Hres; set_solver).
    destruct Hinv as (Hiff & Hloc).
    assert (acc.2 = "" ∨
            ∃ l, l ∈ seen ++ [loc] ∧ acc.2 = path_resolve host p l ∧
                 existsSync proj acc.2 = true) as Hloc'.
    { destruct Hloc as [?|(l & ? & ? & ?)]; [by left|].
      right. exists l. set_solver. }
    destruct (existsSync proj (path_resolve host p loc)) eqn:Hex;
      [|by apply (IH (seen ++ [loc]) acc)].
    destruct (parseRulesFromLocation host proj e (path_resolve host p loc))
      as [found|m] eqn:Hfound; [|done].
    cbn in Hscan. apply (IH (seen ++ [loc]) _ Hres') in Hscan; [done|].
    unfold scanInvariant. cbn [fst snd].
    destruct found as [|r found]; cbn [length].
    + rewrite app_nil_r, bool_decide_eq_false_2 by lia. by cbn.
    + rewrite bool_decide_eq_true_2 by lia. cbn.
      destruct acc.2 as [|c s] eqn:Hacc; cbn.
      * split.
        -- split; [by intros [_ ?]%app_eq_nil|].
           intros Hempty. apply Hres in Hempty; [done|set_solver].
        -- right. exists loc. set_solver.
      * split; [|done].
        split; [|done]. intros [Hnil _]%app_eq_nil. by apply Hiff in Hnil.
Qed.

(** X9.  When [path.resolve] gives non-empty paths, the location of a
    detection is empty exactly when the detection has no rule; otherwise
    it is the resolved path of one of the editor's locations, present in
    the project. *)
Theorem detectRulesForEditor_location (e : EditorType) (p : string)
    (r : DetectionResult) :
  (∀ loc, loc ∈ allLocations e → path_resolve host p loc ≠ "") →
  detectRulesForEditor host proj e p = Ok r →
  (rules r = [] ↔ location r = "") ∧
  (location r = "" ∨
   ∃ loc, loc ∈ allLocations e ∧ location r = path_resolve host p loc ∧
          existsSync proj (location r) = true).
Proof.
  unfold detectRulesForEditor, allLocations. intros Hres H.
  destruct (scanLocations host proj e p (locations (EDITOR_CONFIGS e))
              ([], "")) as [acc|] eqn:H1; [|done].
  cbn in H.
  apply (scanLocations_invariant e p _ []) in H1;
    [|intros; apply Hres; set_solver|by split; [|left]].
  cbn [app] in H1.
  destruct (legacyLocations (EDITOR_CONFIGS e)) as [legacy|].
  - destruct (scanLocations host proj e p legacy acc) as [acc'|] eqn:H2;
      [|done].
    cbn in H. injection H as <-. cbn [rules location default].
    apply (scanLocations_invariant e p _ (locations (EDITOR_CONFIGS e))) in H2;
      [exact H2|intros; apply Hres; set_solver|exact H1].
  - cbn in H. injection H as <-. cbn [rules location default].
    by rewrite app_nil_r.
Qed.

End ParsingFacts.

(** ** More on conversion *)

Section ConversionFacts.

Import Converters.

Context (host : Host).




(** *** One file per rule *)

Lemma writeFile_ok (p text : string) (d d' : Disk) :
  Fs.writeFile p text d = (Ok (), d') →
  writeError d p = None ∧
  d' = mkDisk (<[p := text]> (files d)) (dirs d) (writeError d)
              (mkdirError d) (writes d ++ [p]).
Proof.
  unfold Fs.writeFile. destruct (writeError d p); [done|].
  by intros [= <-].
Qed.

Lemma writeFile_throw (p text m : string) (d d' : Disk) :
  Fs.writeFile p text d = (Throw m, d') → writeError d p = Some m ∧ d' = d.
Proof.
  unfold Fs.writeFile. destruct (writeError d p); [|done].
  by intros [= <- <-].
Qed.

Lemma writeEach_ok (rules : list Rule) (e : EditorType) (outputDir : string)
    (acc written : list string) (d d' : Disk) :
  writeEach host rules e outputDir acc d = (Ok written, d') →
  written = acc ++ (rulePath host e outputDir <$> rules) ∧
  writes d' = writes d ++ (rulePath host e outputDir <$> rules) ∧
  files d' = filesAfter host e outputDir rules (files d) ∧
  dirs d' = dirs d ∧ writeError d' = writeError d ∧
  mkdirError d' = mkdirError d.
Proof.
  revert acc d. induction rules as [|rule rules IH]; intros acc d H.
  - cbn in H. injection H as <- <-. cbn. by rewrite !app_nil_r.
  - cbn [writeEach] in H.
    destruct (Fs.writeFile _ _ d) as [[[]|m] d1] eqn:Hw; [|done].
    apply writeFile_ok in Hw as [_ ->].
    apply IH in H as (-> & Hwrites & Hfiles & Hdirs & Hwe & Hme).
    cbn in *. rewrite <- !app_assoc in *. done.
Qed.

Lemma filesAfter_keeps (e : EditorType) (outputDir : string)
    (rules : list Rule) (before : gmap string string) (p : string) :
  is_Some (before !! p) →
  is_Some (filesAfter host e outputDir rules before !! p).
Proof.
  unfold filesAfter. revert before.
  induction rules as [|rule rules IH]; intros before Hp; cbn; [done|].
  apply IH. rewrite lookup_insert. by case_decide.
Qed.

Lemma existsSync_kept (d d' : Disk) (p : string) :
  dirs d ⊆ dirs d' →
  (is_Some (files d !! p) → is_Some (files d' !! p)) →
  Fs.existsSync d p = true → Fs.existsSync d' p = true.
Proof.
  unfold Fs.existsSync. intros Hdirs Hfiles.
  rewrite !orb_true_iff, !bool_decide_eq_true. set_solver.
Qed.

Lemma convertToEditor_ok (rules : list Rule) (e : EditorType)
    (basePath : string) (d d' : Disk) (written : list string) :
  Parsers.isSingleFileEditor e = false →
  convertToEditor host rules e basePath d = (Ok written, d') →
  let outputDir :=
    path_join host basePath
      (Js.orElse (default "" (head (locations (EDITOR_CONFIGS e)))) ".") in
  written = rulePath host e outputDir <$> rules ∧
  writes d' = writes d ++ written ∧
  files d' = filesAfter host e outputDir rules (files d) ∧
  Fs.existsSync d' outputDir = true.
Proof.
  intros Hmulti. unfold convertToEditor. rewrite Hmulti. cbv zeta.
  set (outputDir := path_join host basePath _).
  destruct (Fs.existsSync d outputDir) eqn:Hex.
  - intros H. apply writeEach_ok in H as (-> & Hw & Hf & Hd & _).
    cbn [app]. split; [done|]. split; [done|]. split; [done|].
    eapply existsSync_kept; [| |exact Hex].
    + by rewrite Hd.
    + rewrite Hf. apply filesAfter_keeps.
  - unfold Fs.mkdir. destruct (mkdirError d outputDir); [done|].
    intros H. apply writeEach_ok in H as (-> & Hw & Hf & Hd & _).
    cbn in *. split; [done|]. split; [done|]. split; [done|].
    unfold Fs.existsSync. rewrite Hd.
    rewrite bool_decide_eq_true_2; [done|set_solver].
Qed.

(** X11.  When [convertToEditor] succeeds for an editor with one file per
    rule, the paths it returns are those of the rules, in order, each
    written once in that order and nothing else; a rule whose path equals
    that of an earlier rule replaces the earlier text; and the output
    directory exists afterwards. *)
Theorem convertToEditor_per_rule_files (rules : list Rule) (e : EditorType)
    (basePath : string) (d d' : Disk) (written : list string) :
  Parsers.isSingleFileEditor e = false →
  convertToEditor host rules e basePath d = (Ok written, d') →
  let outputDir :=
    path_join host basePath
      (Js.orElse (default "" (head (locations (EDITOR_CONFIGS e)))) ".") in
  written = rulePath host e outputDir <$> rules ∧
  writes d' = writes d ++ written ∧
  files d' = filesAfter host e outputDir rules (files d) ∧
  Fs.existsSync d' outputDir = true.
Proof. apply convertToEditor_ok. Qed.

(** X12.  Two rules whose names give the same file name collide: both
    paths are reported, but the file holds only the text of the second
    rule. *)
Theorem convertToEditor_name_collision (r1 r2 : Rule) (e : EditorType)
    (basePath : string) (d d' : Disk) (written : list string) :
  Parsers.isSingleFileEditor e = false →
  generateFileName r1 e = generateFileName r2 e →
  convertToEditor host [r1; r2] e basePath d = (Ok written, d') →
  ∃ p, written = [p; p] ∧
       files d' !! p = Some (convertRuleContent host r2 e) ∧
       ∀ q, q ≠ p → files d' !! q = files d !! q.
Proof.
  intros Hmulti Hsame H.
  apply convertToEditor_ok in H as (-> & _ & Hf & _); [|done].
  eexists. split.
  - cbn. unfold rulePath. rewrite Hsame. reflexivity.
  - rewrite Hf. unfold filesAfter. cbn. unfold rulePath at 1.
    rewrite lookup_insert_eq. split; [done|].
    intros q Hq. unfold rulePath. rewrite Hsame.
    by rewrite !lookup_insert_ne.
Qed.

Lemma writeEach_throw (rules : list Rule) (e : EditorType)
    (outputDir : string) (acc : list string) (d d' : Disk) (m : string) :
  writeEach host rules e outputDir acc d = (Throw m, d') →
  ∃ done rule rest m0,
    rules = done ++ rule :: rest ∧
    writeError d (rulePath host e outputDir rule) = Some m0 ∧
    m = "Failed to convert rule " +:+ name rule +:+ ": " +:+ showError m0 ∧
    writes d' = writes d ++ (rulePath host e outputDir <$> done) ∧
    files d' = filesAfter host e outputDir done (files d).
Proof.
  revert acc d. induction rules as [|rule rules IH]; intros acc d H.
  - discriminate H.
  - cbn [writeEach] in H.
    destruct (Fs.writeFile _ _ d) as [[[]|m0] d1] eqn:Hw.
    + apply writeFile_ok in Hw as [_ ->].
      apply IH in H as (done & r & rest & m1 & -> & Hwe & -> & Hwr & Hf).
      exists (rule :: done), r, rest, m1. cbn in *.
      rewrite <- app_assoc in Hwr. done.
    + apply writeFile_throw in Hw as [Hwe ->]. injection H as <- <-.
      exists [], rule, rules, m0. cbn. by rewrite app_nil_r.
Qed.

(** X13.  When writing the file of some rule fails, [convertToEditor]
    stops there: the files of the rules before it stay written, the rules
    after it are not tried, and the error names the failing rule.  The
    other way to fail is that the output directory cannot be created, and
    then nothing is written. *)
Theorem convertToEditor_failure (rules : list Rule) (e : EditorType)
    (basePath : string) (d d' : Disk) (m : string) :
  Parsers.isSingleFileEditor e = false →
  convertToEditor host rules e basePath d = (Throw m, d') →
  let outputDir :=
    path_join host basePath
      (Js.orElse (default "" (head (locations (EDITOR_CONFIGS e)))) ".") in
  (Fs.existsSync d outputDir = false ∧
   mkdirError d outputDir = Some m ∧ d' = d) ∨
  (∃ done rule rest m0,
     rules = done ++ rule :: rest ∧
     writeError d (rulePath host e outputDir rule) = Some m0 ∧
     m = "Failed to convert rule " +:+ name rule +:+ ": " +:+ showError m0 ∧
     writes d' = writes d ++ (rulePath host e outputDir <$> done) ∧
     files d' = filesAfter host e outputDir done (files d)).
Proof.
  intros Hmulti. unfold convertToEditor. rewrite Hmulti. cbv zeta.
  set (outputDir := path_join host basePath _).
  destruct (Fs.existsSync d outputDir) eqn:Hex.
  - intros H. right. by apply writeEach_throw in H.
  - unfold Fs.mkdir. destruct (mkdirError d outputDir) as [m0|] eqn:Hmk.
    + intros [= <- <-]. by left.
    + intros H. right. apply writeEach_throw in H. exact H.
Qed.

(** *** What a run changes *)

Lemma grownBy_refl (d : Disk) : grownBy d d [].
Proof.
  unfold grownBy. rewrite app_nil_r. repeat split; try done.
  by intros p ?%elem_of_nil.
Qed.

Lemma grownBy_trans (d1 d2 d3 : Disk) (n1 n2 : list string) :
  grownBy d1 d2 n1 → grownBy d2 d3 n2 → grownBy d1 d3 (n1 ++ n2).
Proof.
  intros (Hw1 & Hm1 & Hl1 & Hd1 & Hs1 & Hk1) (Hw2 & Hm2 & Hl2 & Hd2 & Hs2 & Hk2).
  unfold grownBy. split; [congruence|]. split; [congruence|].
  split; [by rewrite Hl2, Hl1, app_assoc|]. split; [set_solver|]. split.
  - intros p Hp. destruct (decide (p ∈ n2)) as [?|Hn2]; [by apply Hs2|].
    rewrite Hk2 by done. apply Hs1. set_solver.
  - intros p Hp. rewrite Hk2, Hk1; set_solver.
Qed.

Lemma writeFile_grown (p text : string) (d d' : Disk) (r : Result unit) :
  Fs.writeFile p text d = (r, d') →
  grownBy d d' (match r with Ok _ => [p] | Throw _ => [] end).
Proof.
  unfold Fs.writeFile. destruct (writeError d p).
  - intros [= <- <-]. apply grownBy_refl.
  - intros [= <- <-]. unfold grownBy. cbn. repeat split; try done.
    + intros q ->%list_elem_of_singleton. by rewrite lookup_insert_eq.
    + intros q Hq. rewrite lookup_insert_ne; [done|]. set_solver.
Qed.

Lemma mkdir_grown (p : string) (d d' : Disk) (r : Result unit) :
  Fs.mkdir p d = (r, d') → grownBy d d' [].
Proof.
  unfold Fs.mkdir. destruct (mkdirError d p).
  - intros [= <- <-]. apply grownBy_refl.
  - intros [= <- <-]. unfold grownBy. cbn. rewrite app_nil_r.
    repeat split; try done; [set_solver|by intros q ?%elem_of_nil].
Qed.

Lemma writeEach_grown (rules : list Rule) (e : EditorType)
    (outputDir : string) (acc : list string) (d d' : Disk)
    (r : Result (list string)) :
  writeEach host rules e outputDir acc d = (r, d') →
  ∃ new, grownBy d d' new ∧ ∀ written, r = Ok written → written = acc ++ new.
Proof.
  revert acc d. induction rules as [|rule rules IH]; intros acc d H.
  - cbn in H. injection H as <- <-. exists []. split; [apply grownBy_refl|].
    intros written [= <-]. by rewrite app_nil_r.
  - cbn [writeEach] in H.
    destruct (Fs.writeFile _ _ d) as [[[]|m0] d1] eqn:Hw.
    + apply writeFile_grown in Hw.
      apply IH in H as (new & Hg & Hout).
      eexists. split; [by eapply grownBy_trans|].
      intros written Hwr. rewrite (Hout _ Hwr), <- app_assoc. done.
    + apply writeFile_grown in Hw. injection H as <- <-.
      exists []. split; [done|]. discriminate.
Qed.

Lemma convertToEditor_grown (rules : list Rule) (e : EditorType)
    (basePath : string) (d d' : Disk) (r : Result (list string)) :
  convertToEditor host rules e basePath d = (r, d') →
  ∃ new, grownBy d d' new ∧ ∀ written, r = Ok written → written = new.
Proof.
  unfold convertToEditor, convertToSingleFile.
  destruct (Parsers.isSingleFileEditor e).
  - destruct (Fs.writeFile _ _ d) as [[[]|m] d1] eqn:Hw;
      apply writeFile_grown in Hw; intros [= <- <-]; eexists;
      (split; [exact Hw|]); [by intros written [= <-]|discriminate].
  - destruct (Fs.existsSync d _).
    + intros H. apply writeEach_grown in H as (new & Hg & Hout).
      exists new. split; [done|]. intros written Hw. by rewrite (Hout _ Hw).
    + destruct (Fs.mkdir _ d) as [[[]|m] d1] eqn:Hmk;
        apply mkdir_grown in Hmk.
      * intros H. apply writeEach_grown in H as (new & Hg & Hout).
        exists new. split; [by apply (grownBy_trans _ _ _ [] new Hmk)|].
        intros written Hw. by rewrite (Hout _ Hw).
      * intros [= <- <-]. exists []. split; [done|]. discriminate.
Qed.

Lemma convertEach_grown (rules : list Rule) (ts : list string) (out : string)
    (res res' : ConversionResult) (d d' : Disk) :
  convertEach host rules ts out res d = (res', d') →
  ∃ new outs,
    grownBy d d' new ∧
    outputFiles res' = outputFiles res ++ outs ∧
    (∀ f, f ∈ outs → f ∈ new) ∧
    converted res' = converted res + length outs ∧
    skipped res' = skipped res.
Proof.
  revert res d. induction ts as [|t ts IH]; intros res d H.
  - cbn in H. injection H as <- <-. exists [], [].
    rewrite app_nil_r. cbn. split; [apply grownBy_refl|]. repeat split; [|lia].
    by intros f ?%elem_of_nil.
  - cbn [convertEach] in H. destruct (getEditorByDisplayName t) as [e|].
    + destruct (convertToEditor host rules e out d) as [[written|m] d1] eqn:Hc;
        apply convertToEditor_grown in Hc as (n1 & Hg1 & Hout);
        apply IH in H as (n2 & outs & Hg2 & Hof & Hsub & Hconv & Hsk);
        cbn in *.
      * exists (n1 ++ n2), (written ++ outs).
        split; [by eapply grownBy_trans|].
        rewrite Hof, <- app_assoc. rewrite Hconv, length_app.
        split; [done|]. split; [|split; [lia|done]].
        intros f Hf. rewrite (Hout _ eq_refl) in Hf. set_solver.
      * exists (n1 ++ n2), outs. split; [by eapply grownBy_trans|].
        split; [done|]. split; [|done]. set_solver.
    + apply IH in H as (n2 & outs & Hg2 & Hof & Hsub & Hconv & Hsk).
      cbn in *. by exists n2, outs.
Qed.

(** X14.  A run of [convertRules] never removes a file: every path that
    held a file still holds one, the paths not written in this run hold
    what they held, directories are only added, and every path reported
    in [outputFiles] was written in this run and holds a file. *)
Theorem convertRules_only_adds (rules : list Rule) (targets : list string)
    (out : string) (d d' : Disk) (res : ConversionResult) :
  convertRules host rules targets out d = (res, d') →
  ∃ new,
    writes d' = writes d ++ new ∧
    dirs d ⊆ dirs d' ∧
    (∀ p, is_Some (files d !! p) → is_Some (files d' !! p)) ∧
    (∀ p, p ∉ new → files d' !! p = files d !! p) ∧
    (∀ f, f ∈ outputFiles res → f ∈ new ∧ is_Some (files d' !! f)).
Proof.
  unfold convertRules. intros H.
  apply convertEach_grown in H
    as (new & outs & (_ & _ & Hw & Hd & Hs & Hk) & Hof & Hsub & _).
  cbn in Hof. subst outs. exists new.
  split; [done|]. split; [done|]. split; [|split; [done|]].
  - intros p Hp. destruct (decide (p ∈ new)); [by apply Hs|by rewrite Hk].
  - intros f Hf. split; [by apply Hsub|by apply Hs, Hsub].
Qed.

(** X15.  Whatever the targets, [converted] is the number of paths in
    [outputFiles] and [skipped] stays 0. *)
Theorem convertRules_counts (rules : list Rule) (targets : list string)
    (out : string) (d : Disk) :
  converted (convertRules host rules targets out d).1 =
    length (outputFiles (convertRules host rules targets out d).1) ∧
  skipped (convertRules host rules targets out d).1 = 0.
Proof.
  unfold convertRules.
  destruct (convertEach host rules targets out _ d) as [res d'] eqn:H.
  apply convertEach_grown in H as (new & outs & _ & Hof & _ & Hconv & Hsk).
  cbn in *. by rewrite Hof, Hconv.
Qed.

Lemma convertEach_unknown (rules : list Rule) (ts : list string) (out : string)
    (res : ConversionResult) (d : Disk) :
  (∀ t, t ∈ ts → getEditorByDisplayName t = None) →
  convertEach host rules ts out res d =
    (mkConversionResult (success res) (converted res) (skipped res)
       (errors res ++ (String.append "Unknown editor: " <$> ts))
       (outputFiles res), d).
Proof.
  revert res. induction ts as [|t ts IH]; intros res Hun; cbn [convertEach].
  - cbn. rewrite app_nil_r. by destruct res.
  - rewrite Hun by set_solver. rewrite IH by (intros; apply Hun; set_solver).
    cbn. by rewrite <- app_assoc.
Qed.

(** X16.  Names that resolve to no editor only add errors: when every
    target is unknown the run still reports success, converts nothing,
    lists one [Unknown editor] message per name in order and leaves the
    disk as it was. *)
Theorem convertRules_all_unknown (rules : list Rule) (targets : list string)
    (out : string) (d : Disk) :
  (∀ t, t ∈ targets → getEditorByDisplayName t = None) →
  convertRules host rules targets out d =
    (mkConversionResult true 0 0
       (String.append "Unknown editor: " <$> targets) [], d).
Proof. intros Hun. unfold convertRules. by rewrite convertEach_unknown. Qed.

End ConversionFacts.

(** ** Display names and groups *)

Section Groups.

Import Commands.

Lemma findByDisplayName_sound (es : list EditorType) (shown : string)
    (e : EditorType) :
  findByDisplayName ((λ e, (e, EDITOR_CONFIGS e)) <$> es) shown = Some e →
  shown ∈ getDisplayNamesForEditor e.
Proof.
  induction es as [|e' es IH]; [done|].
  cbn [fmap list_fmap findByDisplayName]. unfold getDisplayNamesForEditor.
  case_bool_decide as Hd.
  - intros [= <-]. rewrite Hd. destruct (aliasDisplayNames _); set_solver.
  - destruct (aliasDisplayNames (EDITOR_CONFIGS e')) as [al|] eqn:Hal;
      [|exact IH].
    unfold arrayIncludes. case_bool_decide as Hin; [|exact IH].
    intros [= <-]. rewrite Hal. set_solver.
Qed.

(** X17.  Resolution is sound: a name resolves to an editor only if it is
    the display name or an alias of that editor, and to nothing only if it
    is a name of no editor. *)
Theorem getEditorByDisplayName_sound (shown : string) :
  (∀ e, getEditorByDisplayName shown = Some e →
        shown ∈ getDisplayNamesForEditor e) ∧
  (getEditorByDisplayName shown = None →
   ∀ e, shown ∉ getDisplayNamesForEditor e).
Proof.
  split.
  - intros e. apply findByDisplayName_sound.
  - intros Hnone e Hin. apply getEditorByDisplayName_Some in Hin. congruence.
Qed.

Lemma getEditorDisplayNames_elem (shown : string) :
  shown ∈ getEditorDisplayNames ↔ ∃ e, shown ∈ getDisplayNamesForEditor e.
Proof.
  assert (getEditorDisplayNames =
            ["Cursor"; "Windsurf"; "Cline"; "VSCode"; "Codex CLI"; "OpenCode";
             "VSCode Agents"; "AGENTS.md Compatible"; "Claude Code"; "Qoder";
             "Trae"; "QwenCoder"]) as -> by (vm_compute; reflexivity).
  split.
  - intros Hin. apply list_elem_of_In in Hin. cbn in Hin.
    repeat (destruct Hin as [<-|Hin];
            [first [ by exists cursor; apply (bool_decide_unpack _)
                   | by exists windsurf; apply (bool_decide_unpack _)
                   | by exists cline; apply (bool_decide_unpack _)
                   | by exists vscode; apply (bool_decide_unpack _)
                   | by exists codex; apply (bool_decide_unpack _)
                   | by exists claude_code; apply (bool_decide_unpack _)
                   | by exists qoder; apply (bool_decide_unpack _)
                   | by exists trae; apply (bool_decide_unpack _)
                   | by exists qwencoder; apply (bool_decide_unpack _) ]|]).
    destruct Hin.
  - intros [e Hin]. apply list_elem_of_In in Hin. apply list_elem_of_In.
    destruct e; cbn in Hin |- *; intuition.
Qed.

(** X18.  The choices offered as conversion targets are exactly the
    display names and aliases of the editors other than the source: no
    name of the source editor is offered, every other name is, and each
    choice resolves to an editor different from the source. *)
Theorem targetChoices_exclude_source (sourceEditor : EditorType)
    (shown : string) :
  (shown ∈ targetChoices sourceEditor ↔
   ∃ e, e ≠ sourceEditor ∧ shown ∈ getDisplayNamesForEditor e) ∧
  (shown ∈ targetChoices sourceEditor →
   ∃ e, e ≠ sourceEditor ∧ getEditorByDisplayName shown = Some e).
Proof.
  assert (shown ∈ targetChoices sourceEditor ↔
          ∃ e, e ≠ sourceEditor ∧ shown ∈ getDisplayNamesForEditor e) as Hiff.
  { unfold targetChoices. cbv zeta.
    rewrite list_elem_of_filter, getEditorDisplayNames_elem.
    unfold arrayIncludes. rewrite bool_decide_eq_false. split.
    - intros [Hnot [e He]]. exists e. split; [|done]. by intros ->.
    - intros (e & Hne & He). split; [|by exists e].
      intros Hsrc. apply getEditorByDisplayName_Some in He, Hsrc.
      congruence. }
  split; [exact Hiff|].
  intros (e & Hne & He)%Hiff. exists e. split; [done|].
  by apply getEditorByDisplayName_Some.
Qed.

(** *** Grouping the selected names *)

Lemma mapGet_mapSet (g : GroupMap) (k k' : EditorType) (ns : list string) :
  mapGet (mapSet g k ns) k' =
    if bool_decide (k = k') then Some ns else mapGet g k'.
Proof.
  induction g as [|[k0 ns0] g IH]; cbn.
  - done.
  - repeat (case_bool_decide; cbn); try congruence; try done.
Qed.

Lemma mapSet_keys (g : GroupMap) (k : EditorType) (ns : list string) :
  g.*1 `sublist_of` (mapSet g k ns).*1 ∧
  ∀ k', k' ∈ (mapSet g k ns).*1 ↔ k' = k ∨ k' ∈ g.*1.
Proof.
  induction g as [|[k0 ns0] g [IHs IHe]]; cbn.
  - split; [by constructor|]. set_solver.
  - case_bool_decide as Hk; cbn.
    + split; [done|]. set_solver.
    + split; [by constructor|]. intros k'. rewrite !elem_of_cons, IHe.
      tauto.
Qed.

Lemma mapSet_NoDup (g : GroupMap) (k : EditorType) (ns : list string) :
  NoDup g.*1 → NoDup (mapSet g k ns).*1.
Proof.
  induction g as [|[k0 ns0] g IH]; cbn.
  - intros _. apply NoDup_singleton.
  - rewrite NoDup_cons. intros [Hk0 Hg]. case_bool_decide as Hk; cbn.
    + by apply NoDup_cons.
    + apply NoDup_cons. split; [|by apply IH].
      rewrite (proj2 (mapSet_keys g k ns)). intros [->|?]; done.
Qed.

Lemma mapGet_elem (g : GroupMap) (k : EditorType) (ns : list string) :
  NoDup g.*1 → (k, ns) ∈ g ↔ mapGet g k = Some ns.
Proof.
  induction g as [|[k0 ns0] g IH]; cbn.
  - intros _. split; [by intros ?%elem_of_nil|done].
  - rewrite NoDup_cons. intros [Hk0 Hg]. rewrite elem_of_cons.
    case_bool_decide as Hk.
    + subst k0. split.
      * intros [[= ->]|Hin]; [done|].
        destruct Hk0. apply list_elem_of_fmap. by exists (k, ns).
      * intros [= ->]. by left.
    + rewrite <- (IH Hg). split; [|by right].
      intros [[= ? ?]|?]; [congruence|done].
Qed.

Lemma groupEach_grouped (input seen : list string) (g : GroupMap) :
  grouped seen g → grouped (seen ++ input) (groupEach input g).
Proof.
  revert seen g. induction input as [|shown input IH]; intros seen g Hg.
  - by rewrite app_nil_r.
  - cbn [groupEach].
    replace (seen ++ shown :: input) with ((seen ++ [shown]) ++ input)
      by (by rewrite <- app_assoc).
    destruct Hg as [Hnd Hget].
    destruct (getEditorByDisplayName shown) as [e|] eqn:He; apply IH;
      unfold grouped, resolvingTo in *.
    + split; [by apply mapSet_NoDup|].
      intros k. rewrite mapGet_mapSet, filter_app, filter_cons, filter_nil.
      case_bool_decide as Hk.
      * subst k. rewrite Hget.
        rewrite decide_True by done.
        destruct (filter _ seen); done.
      * rewrite decide_False by congruence. by rewrite app_nil_r.
    + split; [done|]. intros k.
      rewrite filter_app, filter_cons, filter_nil.
      rewrite decide_False by congruence. by rewrite app_nil_r.
Qed.

Lemma groupEditorsByType_grouped (input : list string) :
  grouped input (groupEach input []).
Proof. by apply (groupEach_grouped input [] []); split; [constructor|]. Qed.

(** X19.  [groupEditorsByType] gives at most one group per editor, and a
    group is in the result exactly when its names are the selected names
    that resolve to its editor, in the order of selection, and there is at
    least one; names that resolve to no editor are in no group. *)
Theorem groupEditorsByType_spec (input : list string) :
  NoDup (editorType <$> groupEditorsByType input) ∧
  ∀ g, g ∈ groupEditorsByType input ↔
       names g ≠ [] ∧ names g = resolvingTo (editorType g) input.
Proof.
  destruct (groupEditorsByType_grouped input) as [Hnd Hget].
  unfold groupEditorsByType. split.
  - rewrite <- list_fmap_compose. exact Hnd.
  - intros [k ns]. cbn. rewrite list_elem_of_fmap. split.
    + intros ([k' ns'] & [= -> ->] & Hin).
      apply mapGet_elem in Hin; [|done]. rewrite Hget in Hin.
      destruct (resolvingTo k' input); [done|]. by injection Hin as <-.
    + intros [Hne ->]. exists (k, resolvingTo k input). split; [done|].
      apply mapGet_elem; [done|]. rewrite Hget.
      by destruct (resolvingTo k input).
Qed.

(** X20.  For a group built by [groupEditorsByType], the label has the
    editor's display name as base, and every alias listed with it is a
    selected name that is a registered alias of that editor. *)
Theorem getEditorLabelParts_aliases (input : list string) (g : EditorGroup)
    (shown : string) :
  g ∈ groupEditorsByType input →
  (getEditorLabelParts g).1 = displayName (EDITOR_CONFIGS (editorType g)) ∧
  (shown ∈ (getEditorLabelParts g).2 →
   shown ∈ input ∧
   shown ∈ default [] (aliasDisplayNames (EDITOR_CONFIGS (editorType g)))).
Proof.
  intros Hg. split; [done|].
  destruct (groupEditorsByType_grouped input) as [Hnd Hget].
  unfold groupEditorsByType in Hg.
  apply list_elem_of_fmap in Hg as ([k ns] & -> & Hin).
  apply mapGet_elem in Hin; [|done]. rewrite Hget in Hin.
  cbn. rewrite list_elem_of_filter. intros [Hne Hs].
  assert (shown ∈ resolvingTo k input) as Hres.
  { destruct (resolvingTo k input); [done|]. by injection Hin as <-. }
  apply list_elem_of_filter in Hres as [Hk Hinput]. split; [done|].
  apply findByDisplayName_sound in Hk. unfold getDisplayNamesForEditor in Hk.
  destruct (aliasDisplayNames (EDITOR_CONFIGS k)); set_solver.
Qed.

End Groups.

(** ** The universal converters *)

Section UniversalFacts.

Import Universal.

Context (host : Host).

Lemma writeRuleFile_ok (rulesDir filename text : string) (d d' : Disk)
    (written : list string) :
  writeRuleFile host rulesDir filename text d = (Ok written, d') →
  written = [path_join host rulesDir filename] ∧
  files d' !! path_join host rulesDir filename = Some text ∧
  Fs.existsSync d' rulesDir = true.
Proof.
  unfold writeRuleFile, ensureDirectoryExists.
  destruct (Fs.existsSync d rulesDir) eqn:Hex.
  - destruct (Fs.writeFile _ text d) as [[[]|m] d1] eqn:Hw; [|done].
    intros [= <- <-]. apply writeFile_ok in Hw as [_ ->]. cbn.
    rewrite lookup_insert_eq. split; [done|]. split; [done|].
    revert Hex. unfold Fs.existsSync. cbn.
    rewrite !orb_true_iff, !bool_decide_eq_true.
    intros [?|Hf]; [by left|right]. rewrite lookup_insert. by case_decide.
  - unfold Fs.mkdir. destruct (mkdirError d rulesDir); [done|].
    destruct (Fs.writeFile _ text _) as [[[]|m] d1] eqn:Hw; [|done].
    intros [= <- <-]. apply writeFile_ok in Hw as [_ ->]. cbn.
    rewrite lookup_insert_eq. split; [done|]. split; [done|].
    unfold Fs.existsSync. cbn. rewrite bool_decide_eq_true_2; [done|].
    set_solver.
Qed.

Lemma replaceRunsGo_safe (b : bool) (s : string) :
  Js.allChars fileNameChar (Js.replaceRunsGo b s) = true.
Proof.
  revert b. induction s as [|c s IH]; intros b; [done|].
  cbn [Js.replaceRunsGo]. destruct (Js.lowerAlnum c) eqn:Hc.
  - cbn. rewrite IH. unfold fileNameChar. by rewrite Hc.
  - destruct b; [apply IH|]. cbn. by rewrite IH.
Qed.



Lemma startsWith_hash (s : string) : Js.startsWith ("# " +:+ s) "#" = true.
Proof. reflexivity. Qed.

(** X22.  The file a universal converter writes for Windsurf, Cline or
    VSCode always starts with [#]: it is the rule content when that
    already starts with [#], and otherwise the content under a heading
    made of the rule name. *)
Theorem convertUniversalRule_heading (rule : UniversalRule) (e : EditorType)
    (d d' : Disk) (written : list string) :
  e ∈ [windsurf; cline; vscode] →
  convertUniversalRule host rule e d = (Ok written, d') →
  ∃ p text,
    written = [p] ∧ files d' !! p = Some text ∧
    Js.startsWith text "#" = true ∧
    text = (if Js.startsWith (u_content rule) "#" then u_content rule
            else "# " +:+ u_name rule +:+ nl +:+ nl +:+ u_content rule).
Proof.
  intros He Hc. apply list_elem_of_In in He. cbn in He.
  assert (∃ dir, writeRuleFile host dir (sanitizedName rule +:+ ".md")
                   (withHeader rule) d = (Ok written, d')) as [dir Hw].
  { destruct He as [<-|[<-|[<-|[]]]]; eexists; exact Hc. }
  apply writeRuleFile_ok in Hw as (-> & Hf & _).
  eexists _, _. split; [done|]. split; [exact Hf|].
  unfold withHeader. destruct (Js.startsWith (u_content rule) "#") eqn:Hs.
  - done.
  - split; [|done]. apply startsWith_hash.
Qed.

(** *** Adding one rule to several editors *)

Lemma convertUniversalRule_one_file (rule : UniversalRule) (e : EditorType)
    (d d' : Disk) (written : list string) :
  convertUniversalRule host rule e d = (Ok written, d') → length written = 1.
Proof.
  destruct (universalTarget e) as [[dir ext]|] eqn:Ht.
  - intros Hc.
    assert (∃ text, writeRuleFile host dir (sanitizedName rule +:+ ext)
                                  text d = (Ok written, d')) as [text Hw].
    { destruct e; try discriminate Ht; injection Ht as <- <-; cbn in Hc;
        eexists; exact Hc. }
    by apply writeRuleFile_ok in Hw as (-> & _).
  - destruct e; try discriminate Ht; cbn;
      unfold convertToCodex, convertToQwenCoder, upsertSection,
        convertToClaudeCode;
      destruct (Fs.writeFile _ _ d) as [[[]|m] d1]; try done;
      by intros [= <- <-].
Qed.

Lemma addEach_accounts (rule : UniversalRule) (editors : list EditorType)
    (res res' : Commands.AddRuleResult) (d d' : Disk) :
  Commands.addEach host rule editors res d = (res', d') →
  length (Commands.add_outputFiles res') + length (Commands.add_errors res')
    = length (Commands.add_outputFiles res) +
      length (Commands.add_errors res) + length editors ∧
  (Commands.add_success res' = true ↔
   Commands.add_success res = true ∧
   Commands.add_errors res' = Commands.add_errors res) ∧
  Commands.add_rule res' = Commands.add_rule res ∧
  Commands.add_warnings res' = Commands.add_warnings res ∧
  Commands.add_errors res `prefix_of` Commands.add_errors res'.
Proof.
  revert res d. induction editors as [|e editors IH]; intros res d H.
  - cbn in H. injection H as <- <-. cbn.
    split; [lia|]. split; [tauto|]. done.
  - cbn [Commands.addEach] in H.
    destruct (convertUniversalRule host rule e d) as [[written|m] d1] eqn:Hc.
    + apply convertUniversalRule_one_file in Hc.
      apply IH in H as (Hlen & Hsucc & Hrule & Hwarn & Hpre). cbn in *.
      rewrite length_app in Hlen. split; [lia|]. done.
    + apply IH in H as (Hlen & Hsucc & Hrule & Hwarn & Hpre). cbn in *.
      rewrite length_app in Hlen. cbn in Hlen. split; [lia|].
      split; [|split; [done|split; [done|]]].
      * split; [by intros [? _]%Hsucc|]. intros [_ Heq].
        apply prefix_length in Hpre. rewrite Heq, length_app in Hpre.
        cbn in Hpre. lia.
      * etrans; [|exact Hpre]. by apply prefix_app_r.
Qed.

(** X23.  [addRuleToEditors] accounts for every target editor with exactly
    one output file or exactly one error message, and reports success
    exactly when there is no error. *)
Theorem addRuleToEditors_accounts (rule : UniversalRule)
    (editors : list EditorType) (d : Disk) :
  let res := (Commands.addRuleToEditors host rule editors d).1 in
  length (Commands.add_outputFiles res) + length (Commands.add_errors res)
    = length editors ∧
  (Commands.add_success res = true ↔ Commands.add_errors res = []) ∧
  Commands.add_rule res = rule ∧ Commands.add_warnings res = [].
Proof.
  cbv zeta. unfold Commands.addRuleToEditors.
  destruct (Commands.addEach host rule editors _ d) as [res d'] eqn:H.
  apply addEach_accounts in H as (Hlen & Hsucc & Hrule & Hwarn & _).
  cbn in *. split; [lia|]. split; [|done]. rewrite Hsucc. tauto.
Qed.

(** *** The shared files *)

(** X24.  [convertToClaudeCode] never replaces: adding the same rule to
    [CLAUDE.md] twice leaves the text of the first run followed by the
    same section once more. *)
Theorem convertToClaudeCode_additive (rule : UniversalRule) (d : Disk) :
  writeError d "CLAUDE.md" = None →
  let once := (convertToClaudeCode rule d).2 in
  let twice := (convertToClaudeCode rule once).2 in
  ∃ text,
    files once !! "CLAUDE.md" = Some text ∧
    files twice !! "CLAUDE.md" =
      Some (text +:+ nl +:+ "## " +:+ u_name rule +:+ nl +:+ nl +:+
            u_content rule +:+ nl).
Proof.
  intros Hw. cbv zeta.
  pose proof (convertToClaudeCode_written rule d Hw) as H1.
  eexists. split; [exact H1|].
  rewrite convertToClaudeCode_written.
  - by rewrite H1.
  - unfold convertToClaudeCode, Fs.writeFile. by rewrite Hw.
Qed.

(** X25.  When the shared file does not yet hold the delimiter of the
    rule, [convertToCodex] and [convertToQwenCoder] keep the text of the
    file (or start from their header) and put the new section after it. *)
Theorem upsertSection_appends (filepath header : string)
    (rule : UniversalRule) (d : Disk) :
  writeError d filepath = None →
  Js.includes (default header (files d !! filepath))
              ("---- " +:+ sanitizedName rule +:+ " ----") = false →
  (upsertSection filepath header rule d).1 = Ok [filepath] ∧
  files (upsertSection filepath header rule d).2 !! filepath =
    Some (default header (files d !! filepath) +:+
          "---- " +:+ sanitizedName rule +:+ " ----" +:+ nl +:+ nl +:+
          u_content rule +:+ nl +:+ nl).
Proof.
  intros Hw Hinc. unfold upsertSection, Fs.writeFile. rewrite Hw, Hinc. cbn.
  by rewrite lookup_insert_eq.
Qed.

End UniversalFacts.

(** ** Shared files with delimited sections *)

Section Sections.

Import Parsers.

Local Abbreviation chars := String.list_ascii_of_string.

Lemma string_rev_involutive (s : string) : String.rev (String.rev s) = s.
Proof. apply chars_inj. by rewrite !chars_rev, reverse_involutive. Qed.

Lemma string_rev_app (s t : string) :
  String.rev (s +:+ t) = String.rev t +:+ String.rev s.
Proof.
  apply chars_inj.
  by rewrite chars_rev, !chars_app, !chars_rev, reverse_app.
Qed.

Lemma string_rev_app_eq (s t : string) :
  String.rev_app s t = String.rev s +:+ t.
Proof. apply chars_inj. by rewrite chars_rev_app, chars_app, chars_rev. Qed.

Lemma string_cons_app (c : ascii) (s t : string) :
  String c s +:+ t = String c (s +:+ t).
Proof. reflexivity. Qed.

Lemma stripPrefix_Some (p s r : string) :
  stripPrefix p s = Some r → s = p +:+ r.
Proof.
  revert s. induction p as [|a p IH]; intros s; cbn.
  - by intros [= ->].
  - destruct s as [|b s]; [done|]. case_bool_decide; [|done].
    subst. intros H. rewrite string_cons_app. f_equal. by apply IH.
Qed.

Lemma stripPrefix_app (p r : string) : stripPrefix p (p +:+ r) = Some r.
Proof.
  induction p as [|a p IH]; [done|]. rewrite string_cons_app. cbn.
  by rewrite bool_decide_eq_true_2.
Qed.

Lemma delimiterName_Some (line n : string) :
  delimiterName line = Some n ↔
  n ≠ "" ∧ line = "---- " +:+ n +:+ " ----".
Proof.
  unfold delimiterName. split.
  - destruct (stripPrefix "---- " line) as [r|] eqn:Hr; cbn -[stripPrefix];
      [|by intros [=]].
    destruct (stripPrefix "---- " (String.rev r)) as [m|] eqn:Hm;
      cbn -[stripPrefix]; [|by intros [=]].
    destruct (Js.truthy m) eqn:Ht; [|by intros [=]]. intros [= <-].
    apply stripPrefix_Some in Hr, Hm.
    split.
    + destruct m; [done|]. intros Hrev.
      apply (f_equal String.rev) in Hrev.
      by rewrite string_rev_involutive in Hrev.
    + rewrite Hr. f_equal.
      rewrite <- (string_rev_involutive r), Hm, string_rev_app. done.
  - intros [Hn ->]. rewrite stripPrefix_app. cbn -[stripPrefix].
    rewrite string_rev_app.
    change (String.rev " ----") with "---- ".
    rewrite stripPrefix_app. cbn -[stripPrefix].
    rewrite string_rev_involutive.
    destruct (String.rev n) eqn:Hrev; [|done].
    apply (f_equal String.rev) in Hrev.
    by rewrite string_rev_involutive in Hrev.
Qed.

Lemma takeWhile_dropChars (p : ascii → bool) (s : string) :
  s = takeWhile p s +:+
      Universal.dropChars (String.length (takeWhile p s)) s.
Proof.
  induction s as [|c s IH]; [done|]. cbn.
  destruct (p c); [|done]. cbn. rewrite string_cons_app. by f_equal.
Qed.

Lemma takeWhile_length (p : ascii → bool) (s : string) :
  String.length (takeWhile p s) ≤ String.length s.
Proof.
  induction s as [|c s IH]; [done|]. cbn. destruct (p c); cbn; lia.
Qed.

Lemma splitSectionsGo_join (s : string) (skip : nat) (atStart : bool)
    (piece : string) :
  skip ≤ String.length s →
  joinSections (splitSectionsGo skip atStart piece s) =
    String.rev piece +:+ Universal.dropChars skip s.
Proof.
  revert skip atStart piece.
  induction s as [|c s IH]; intros skip atStart piece Hskip.
  - cbn in Hskip. replace skip with 0 by lia. cbn.
    by rewrite string_app_nil_r.
  - cbn [splitSectionsGo]. destruct skip as [|k].
    + destruct (if atStart then _ else None) as [n|] eqn:Hd.
      * destruct atStart; [|done].
        apply delimiterName_Some in Hd as [Hn Hline].
        pose proof (takeWhile_dropChars notTerminator (String c s)) as Hs.
        pose proof (takeWhile_length notTerminator (String c s)) as Hlen.
        set (line := takeWhile notTerminator (String c s)) in *.
        assert (String.length line = S (String.length line - 1)) as Hl.
        { rewrite Hline. rewrite !string_length_app. cbn. lia. }
        assert (String.length (String c s) = S (String.length s)) as Hc
          by done.
        cbn [joinSections]. rewrite IH by lia.
        rewrite Hl in Hs. cbn [Universal.dropChars] in Hs.
        cbn [Universal.dropChars].
        transitivity
          (String.rev piece +:+ line +:+
           Universal.dropChars (String.length line - 1) s);
          [|by rewrite <- Hs].
        rewrite Hline, !string_app_assoc. done.
      * rewrite IH by lia. cbn [Universal.dropChars].
        change (String.rev (String c piece))
          with (String.rev_app piece (String c "")).
        by rewrite string_rev_app_eq, string_app_assoc.
    + rewrite IH by (cbn in Hskip; lia). done.
Qed.

Lemma splitSectionsGo_odd (s : string) (skip : nat) (atStart : bool)
    (piece : string) :
  Nat.Odd (length (splitSectionsGo skip atStart piece s)).
Proof.
  revert skip atStart piece.
  induction s as [|c s IH]; intros skip atStart piece.
  - by exists 0.
  - cbn [splitSectionsGo]. destruct skip as [|k]; [|apply IH].
    destruct (if atStart then _ else None); [|apply IH].
    cbn [length]. destruct (IH (String.length
      (takeWhile notTerminator (String c s)) - 1) false "") as [m Hm].
    exists (S m). lia.
Qed.

(** X26.  Splitting a text at its section delimiters loses nothing: the
    result has an odd number of entries (a first piece, then a name and a
    piece for every delimiter line), and putting every name back inside
    its delimiter between the pieces gives the text again. *)
Theorem splitSections_lossless (text : string) :
  joinSections (splitSections text) = text ∧
  Nat.Odd (length (splitSections text)).
Proof.
  split.
  - unfold splitSections. by rewrite splitSectionsGo_join by lia.
  - apply splitSectionsGo_odd.
Qed.

(** *** What is written is read back *)

Lemma nl_app (s : string) : nl +:+ s = String "010"%char s.
Proof. reflexivity. Qed.

Lemma takeWhile_app_nl (a b : string) :
  takeWhile notTerminator (a +:+ nl +:+ b) = takeWhile notTerminator a.
Proof.
  induction a as [|c a IH]; [done|]. rewrite string_cons_app. cbn.
  destruct (notTerminator c); [by rewrite IH|done].
Qed.

Lemma takeWhile_all (p : ascii → bool) (s : string) :
  Js.allChars p s = true → takeWhile p s = s.
Proof.
  induction s as [|c s IH]; [done|]. cbn. destruct (p c); [|done].
  cbn. intros H. by rewrite IH.
Qed.

Lemma allChars_app (p : ascii → bool) (s t : string) :
  Js.allChars p (s +:+ t) = Js.allChars p s && Js.allChars p t.
Proof.
  induction s as [|c s IH]; [done|]. rewrite string_cons_app. cbn.
  by rewrite IH, andb_assoc.
Qed.

Lemma splitSectionsGo_plain (a b piece : string) (atStart : bool) :
  delimiterFree atStart a = true →
  splitSectionsGo 0 atStart piece (a +:+ nl +:+ b) =
    splitSectionsGo 0 true (String "010"%char (String.rev_app a piece)) b.
Proof.
  revert atStart piece. induction a as [|c a IH]; intros atStart piece Hfree.
  - rewrite nl_app. change ("" +:+ String "010"%char b)
      with (String "010"%char b).
    cbn [splitSectionsGo]. by destruct atStart.
  - rewrite string_cons_app. cbn [splitSectionsGo].
    cbn [delimiterFree] in Hfree.
    rewrite <- string_cons_app, takeWhile_app_nl.
    destruct (if atStart then _ else None); [done|].
    by rewrite IH.
Qed.

Lemma splitSectionsGo_plain_end (a piece : string) (atStart : bool) :
  delimiterFree atStart a = true →
  splitSectionsGo 0 atStart piece a = [String.rev (String.rev_app a piece)].
Proof.
  revert atStart piece. induction a as [|c a IH]; intros atStart piece Hfree.
  - done.
  - cbn [splitSectionsGo]. cbn [delimiterFree] in Hfree.
    destruct (if atStart then _ else None); [done|]. by rewrite IH.
Qed.

Lemma splitSectionsGo_skip (x r piece : string) :
  splitSectionsGo (String.length x) false piece (x +:+ r) =
    splitSectionsGo 0 false piece r.
Proof.
  induction x as [|c x IH]; [done|]. rewrite string_cons_app. cbn. exact IH.
Qed.

Lemma splitSectionsGo_delimiter (n b piece : string) :
  n ≠ "" → Js.allChars notTerminator n = true →
  splitSectionsGo 0 true piece (("---- " +:+ n +:+ " ----") +:+ nl +:+ b) =
    String.rev piece :: n :: splitSectionsGo 0 true nl b.
Proof.
  intros Hn Hnt.
  assert (Js.allChars notTerminator ("---- " +:+ n +:+ " ----") = true) as Hl
    by (by rewrite !allChars_app, Hnt).
  assert (delimiterName ("---- " +:+ n +:+ " ----") = Some n) as Hd
    by (by apply delimiterName_Some).
  change ("---- " +:+ n +:+ " ----")
    with (String "-"%char ("--- " +:+ n +:+ " ----")) in *.
  rewrite string_cons_app. cbn [splitSectionsGo].
  rewrite <- string_cons_app, takeWhile_app_nl, takeWhile_all by done.
  rewrite Hd. cbn [String.length].
  rewrite Nat.sub_succ, Nat.sub_0_r, splitSectionsGo_skip.
  by rewrite nl_app.
Qed.

Lemma singleFileSections_cons (e : EditorType) (rule : Rule)
    (rest : list Rule) :
  bool_decide (e = codex) || bool_decide (e = qwencoder) = true →
  Converters.singleFileSections e (rule :: rest) =
    ("---- " +:+ name rule +:+ " ----") +:+ nl +:+ nl +:+ content rule +:+
    match rest with
    | [] => ""
    | _ => nl +:+ nl +:+ Converters.singleFileSections e rest
    end.
Proof.
  intros He. cbn [Converters.singleFileSections]. rewrite He.
  rewrite !string_app_assoc. destruct rest; [|by rewrite !string_app_assoc].
  cbn [Converters.singleFileSections]. by rewrite !string_app_nil_r.
Qed.

Lemma splitSectionsGo_nl (b piece : string) :
  splitSectionsGo 0 true piece (nl +:+ b) =
    splitSectionsGo 0 true (String "010"%char piece) b.
Proof. exact (splitSectionsGo_plain "" b piece true eq_refl). Qed.

Lemma rev_body_last (c : string) :
  String.rev (String.rev_app c (String "010"%char nl)) = nl +:+ nl +:+ c.
Proof.
  apply chars_inj. rewrite chars_rev, chars_rev_app, !chars_app.
  rewrite reverse_app, reverse_involutive. done.
Qed.

Lemma rev_body_inner (c : string) :
  String.rev (String "010"%char (String "010"%char
                (String.rev_app c (String "010"%char nl))))
  = nl +:+ nl +:+ c +:+ nl +:+ nl.
Proof.
  apply chars_inj. rewrite chars_rev. cbn [String.list_ascii_of_string].
  rewrite chars_rev_app, !chars_app, !reverse_cons, reverse_app,
    reverse_involutive.
  rewrite <- !app_assoc. done.
Qed.

Lemma splitSectionsGo_sections (e : EditorType) (rule : Rule)
    (rest : list Rule) (piece : string) :
  bool_decide (e = codex) || bool_decide (e = qwencoder) = true →
  Forall sectionSafe (rule :: rest) →
  splitSectionsGo 0 true piece (Converters.singleFileSections e (rule :: rest))
  = String.rev piece :: sectionPieces (rule :: rest).
Proof.
  intros He. revert rule piece.
  induction rest as [|next rest IH]; intros rule piece Hsafe;
    rewrite singleFileSections_cons by done;
    apply Forall_cons in Hsafe as [(Hn & _ & Hnt & _ & _ & Hfree) Hsafe];
    rewrite splitSectionsGo_delimiter by done;
    cbn [sectionPieces]; do 2 f_equal.
  - rewrite splitSectionsGo_nl, string_app_nil_r.
    rewrite splitSectionsGo_plain_end by done.
    by rewrite rev_body_last.
  - rewrite splitSectionsGo_nl.
    rewrite (splitSectionsGo_plain (content rule)) by done.
    rewrite splitSectionsGo_nl.
    rewrite IH by done. cbn [sectionPieces]. f_equal.
    apply rev_body_inner.
Qed.

Lemma trimList_padded (before l after : list ascii) :
  trimList l = l → l ≠ [] →
  forallb Js.isSpace before = true → forallb Js.isSpace after = true →
  trimList (before ++ l ++ after) = l.
Proof.
  intros Hfix Hne Hb Ha.
  destruct (trim_shape Js.isSpace l)
    as [H|[(x & H & Hx)|(x & mid & y & H & Hx & Hy)]];
    fold (trimList l) in H; rewrite Hfix in H; subst l; [done| |].
  - unfold trimList. rewrite dropWhileList_app by done. cbn [app].
    rewrite dropWhileList_keep by done.
    rewrite reverse_cons, dropWhileList_app
      by (by rewrite forallb_reverse).
    rewrite dropWhileList_keep by done. done.
  - by apply trim_core.
Qed.

Lemma allSpace_nl : forallb Js.isSpace (chars (nl +:+ nl)) = true.
Proof. reflexivity. Qed.

Lemma trim_padded (c pad : string) :
  Js.trim c = c → c ≠ "" →
  forallb Js.isSpace (chars pad) = true →
  Js.trim (nl +:+ nl +:+ c +:+ pad) = c.
Proof.
  intros Hfix Hne Hpad. apply chars_inj.
  rewrite chars_trim.
  replace (chars (nl +:+ nl +:+ c +:+ pad))
    with (chars (nl +:+ nl) ++ chars c ++ chars pad)
    by (by rewrite <- !chars_app, !string_app_assoc).
  apply trimList_padded; [|by destruct c|done..].
  by rewrite <- chars_trim, Hfix.
Qed.

Lemma sectionRules_pieces (e : EditorType) (filePath : string)
    (rules : list Rule) :
  Forall sectionSafe rules →
  sectionRules e filePath (sectionPieces rules) =
    reparsed e filePath <$> rules.
Proof.
  induction 1 as [|rule rest (Hn & Htn & _ & Hc & Htc & _) _ IH]; [done|].
  cbn [sectionPieces sectionRules fmap list_fmap].
  rewrite Htn, trim_padded by (done || by destruct rest).
  rewrite IH.
  assert (Js.truthy (name rule) = true) as -> by (by destruct (name rule)).
  assert (Js.truthy (content rule) = true) as ->
    by (by destruct (content rule)).
  done.
Qed.

(** X27.  A shared file written by [convertToSingleFile] for Codex CLI or
    QwenCoder reads back as one rule per rule written, in order, with the
    same name and body, provided every name is non-empty, trimmed and on
    one line and every body is non-empty, trimmed and without a delimiter
    line.  The type comes back as [always], the patterns are gone and the
    description is the generated one. *)
Theorem shared_file_round_trip (host : Host) (proj : Project)
    (e : EditorType) (filePath : string) (rules : list Rule) :
  e ∈ [codex; qwencoder] →
  Forall sectionSafe rules →
  readFile proj filePath =
    Ok (Converters.singleFileHeader e +:+
        Converters.singleFileSections e rules) →
  parseSingleFileWithSections host proj e filePath =
    Ok (reparsed e filePath <$> rules).
Proof.
  intros He Hsafe Hread. unfold parseSingleFileWithSections. rewrite Hread.
  cbn [mbind Result_bind].
  assert (bool_decide (e = codex) || bool_decide (e = qwencoder) = true
          ∧ ∃ h, Converters.singleFileHeader e = h +:+ nl ∧
                 delimiterFree true h = true
                 ∧ delimiterFree true (Converters.singleFileHeader e) = true)
    as (Hcq & h & Hh & Hfree & Hfree').
  { apply list_elem_of_In in He. cbn in He.
    destruct He as [<-|[<-|[]]]; (split; [done|]).
    - exists ("# Project Agent Rules" +:+ nl +:+ nl +:+
              "*Converted rules from multiple sources*" +:+ nl). done.
    - exists ("# Project Context Rules" +:+ nl +:+ nl +:+
              "*AI coding assistant guidance*" +:+ nl). done. }
  rewrite Hcq. f_equal. unfold splitSections.
  destruct rules as [|rule rest].
  - cbn [Converters.singleFileSections]. rewrite string_app_nil_r.
    by rewrite splitSectionsGo_plain_end.
  - rewrite Hh, string_app_assoc, splitSectionsGo_plain by done.
    rewrite splitSectionsGo_sections by done. cbn [tail].
    by apply sectionRules_pieces.
Qed.

End Sections.

(** ** Replacing a section in a shared file *)

Section Upsert.

Import Universal.

Local Abbreviation chars := String.list_ascii_of_string.

Lemma prefix_nil_r (p : string) : p ≠ "" → String.prefix p "" = false.
Proof. by destruct p. Qed.

Lemma prefix_app_self (p r : string) : String.prefix p (p +:+ r) = true.
Proof.
  induction p as [|a p IH]; [by destruct r|].
  rewrite string_cons_app, prefix_cons. by destruct (ascii_dec a a).
Qed.

(** A pattern that starts a text made of two parts starts the first part,
    or covers it and goes on, with what is left of it, into the second. *)
Lemma prefix_app_cases (lit x t : string) :
  String.prefix lit (x +:+ t) = true →
  String.prefix lit x = true ∨
  ∃ l2, l2 ≠ "" ∧ lit = x +:+ l2 ∧ String.prefix l2 t = true.
Proof.
  revert x. induction lit as [|a lit IH]; intros x H.
  - left. by destruct x.
  - destruct x as [|c x].
    + right. exists (String a lit). done.
    + rewrite string_cons_app, prefix_cons in H. rewrite prefix_cons.
      destruct (ascii_dec a c) as [->|]; [|done].
      destruct (IH x H) as [?|(l2 & ? & -> & ?)]; [by left|].
      right. by exists l2.
Qed.

Lemma prefix_head (l2 t : string) :
  l2 ≠ "" → String.prefix l2 t = true →
  ∃ c, c ∈ chars l2 ∧ c ∈ chars t.
Proof.
  destruct l2 as [|a l2]; [done|]. intros _. destruct t as [|c t]; [done|].
  rewrite prefix_cons. destruct (ascii_dec a c) as [->|]; [|done].
  intros _. exists c. cbn. set_solver.
Qed.

Lemma includes_prefix (s pat : string) :
  String.prefix pat s = true → Js.includes s pat = true.
Proof. intros H. destruct s; unfold Js.includes; by rewrite H. Qed.

Lemma includes_app_r (a s pat : string) :
  Js.includes s pat = true → Js.includes (a +:+ s) pat = true.
Proof.
  intros H. induction a as [|c a IH]; [done|].
  rewrite string_cons_app, includes_cons, IH. apply orb_true_r.
Qed.

Lemma includes_suffix_false (p x pat : string) :
  Js.includes (p +:+ x) pat = false → Js.includes x pat = false.
Proof.
  intros H. destruct (Js.includes x pat) eqn:Hx; [|done].
  by rewrite (includes_app_r p x pat Hx) in H.
Qed.

Lemma includes_disjoint (t pat : string) :
  pat ≠ "" → (∀ c, c ∈ chars t → c ∉ chars pat) →
  Js.includes t pat = false.
Proof.
  intros Hpat Hdis. induction t as [|c t IH].
  - by destruct pat.
  - rewrite includes_cons, IH by (intros; apply Hdis; cbn; set_solver).
    rewrite orb_false_r. destruct pat as [|a pat]; [done|].
    rewrite prefix_cons. destruct (ascii_dec a c) as [->|]; [|done].
    destruct (Hdis c); cbn; set_solver.
Qed.

Lemma includes_app_false (s t pat : string) :
  pat ≠ "" → Js.includes s pat = false →
  (∀ c, c ∈ chars t → c ∉ chars pat) →
  Js.includes (s +:+ t) pat = false.
Proof.
  intros Hpat Hs Hdis. induction s as [|c s IH].
  - by apply includes_disjoint.
  - rewrite includes_cons in Hs. apply orb_false_iff in Hs as [Hp Hs].
    rewrite string_cons_app, includes_cons, (IH Hs), orb_false_r.
    rewrite <- string_cons_app.
    destruct (String.prefix pat (String c s +:+ t)) eqn:Hpre; [|done].
    apply prefix_app_cases in Hpre as [?|(l2 & Hl2 & -> & Hpre)];
      [congruence|].
    destruct (prefix_head _ _ Hl2 Hpre) as (x & Hx1 & Hx2).
    destruct (Hdis x Hx2). rewrite chars_app. set_solver.
Qed.

Lemma lazyBody_whole (s : string) :
  Js.includes s "---- " = false → lazyBody s = (s, "").
Proof.
  induction s as [|c s IH]; [done|].
  rewrite includes_cons. intros [Hp Hs]%orb_false_iff.
  cbn [lazyBody]. rewrite Hp, (IH Hs). done.
Qed.

Lemma expand_plain (r matched before after : string) :
  "$"%char ∉ chars r → expand r matched before after = r.
Proof.
  induction r as [|c r IH]; [done|]. cbn [String.list_ascii_of_string].
  rewrite not_elem_of_cons. intros [Hc Hr]. cbn [expand].
  rewrite bool_decide_eq_false_2 by done. by rewrite IH.
Qed.

Lemma dropChars_app (x r : string) :
  dropChars (String.length x) (x +:+ r) = r.
Proof.
  induction x as [|c x IH]; [by destruct r|]. by rewrite string_cons_app.
Qed.

Lemma replaceSections_skip_all (lit rep before s : string) :
  replaceSections lit rep (String.length s) before s = "".
Proof.
  revert before. induction s as [|c s IH]; intros before; [done|].
  cbn. apply IH.
Qed.

(** Scanning a text in which no match starts copies it. *)
Lemma replaceSections_scan (lit rep before e t : string) :
  (∀ p x, e = p +:+ x → x ≠ "" → String.prefix lit (x +:+ t) = false) →
  replaceSections lit rep 0 before (e +:+ t) =
    e +:+ replaceSections lit rep 0 (String.rev_app e before) t.
Proof.
  revert before. induction e as [|c e IH]; intros before Hno; [done|].
  rewrite string_cons_app. cbn [replaceSections].
  rewrite <- string_cons_app, (Hno "" (String c e)) by done.
  rewrite string_cons_app. f_equal. apply IH.
  intros p x -> Hx. by apply (Hno (String c p)).
Qed.

Lemma last_in_suffix {A} (l1 l2 l3 : list A) (x : A) :
  l1 ++ l2 = l3 ++ [x] → l2 ≠ [] → x ∈ l2.
Proof.
  intros Heq Hne. destruct (decide (l2 = [])) as [|_]; [done|].
  destruct l2 as [|y l2 _] using rev_ind; [done|].
  rewrite app_assoc in Heq. apply app_inj_tail in Heq as [_ ->].
  set_solver.
Qed.

(** In a text that ends with a line feed and does not hold the delimiter,
    no match of the pattern starts, whatever follows the text. *)
Lemma no_match_before (lit e0 t : string) :
  Js.includes (e0 +:+ nl) lit = false →
  "010"%char ∉ chars lit →
  ∀ p x, e0 +:+ nl = p +:+ x → x ≠ "" →
         String.prefix lit (x +:+ t) = false.
Proof.
  intros Hinc Hnl p x Heq Hx.
  destruct (String.prefix lit (x +:+ t)) eqn:Hpre; [|done].
  apply prefix_app_cases in Hpre as [Hpre|(l2 & _ & -> & _)].
  - rewrite Heq in Hinc. apply includes_suffix_false in Hinc.
    by rewrite (includes_prefix _ _ Hpre) in Hinc.
  - destruct Hnl. rewrite chars_app. apply elem_of_app. left.
    apply (f_equal chars) in Heq. rewrite !chars_app in Heq.
    symmetry in Heq. apply (last_in_suffix _ _ _ _ Heq).
    by destruct x.
Qed.

Lemma allChars_elem (p : ascii → bool) (s : string) (c : ascii) :
  Js.allChars p s = true → c ∈ chars s → p c = true.
Proof.
  induction s as [|a s IH]; cbn; [by intros _ ?%elem_of_nil|].
  intros [Ha Hs]%andb_true_iff [->|?]%elem_of_cons; [done|by apply IH].
Qed.

Lemma delimiter_chars (rule : UniversalRule) (c : ascii) :
  c ∈ chars ("---- " +:+ sanitizedName rule +:+ " ----") →
  c = "-"%char ∨ c = " "%char ∨ fileNameChar c = true.
Proof.
  rewrite !chars_app, !elem_of_app. intros [H|[H|H]].
  - apply list_elem_of_In in H. cbn in H. intuition.
  - right; right. eapply allChars_elem; [|exact H].
    apply replaceRunsGo_safe.
  - apply list_elem_of_In in H. cbn in H. intuition.
Qed.

(** X28.  Adding the same rule twice to a shared file of Codex CLI or
    QwenCoder leaves the file as the first addition left it, when the
    text before the first addition ends with a line feed and does not
    hold the rule's delimiter, and the rule body holds neither [---- ]
    nor a dollar sign. *)
Theorem upsertSection_idempotent (filepath header : string)
    (rule : UniversalRule) (d : Disk) (e0 : string) :
  writeError d filepath = None →
  default header (files d !! filepath) = e0 +:+ nl →
  Js.includes (e0 +:+ nl) ("---- " +:+ sanitizedName rule +:+ " ----")
    = false →
  Js.includes (u_content rule) "---- " = false →
  "$"%char ∉ String.list_ascii_of_string (u_content rule) →
  let once := (upsertSection filepath header rule d).2 in
  let twice := (upsertSection filepath header rule once).2 in
  files twice = files once ∧
  files once !! filepath =
    Some ((e0 +:+ nl) +:+ "---- " +:+ sanitizedName rule +:+ " ----" +:+
          nl +:+ nl +:+ u_content rule +:+ nl +:+ nl).
Proof.
  intros Hw He Hinc Hbody Hdollar. cbv zeta.
  set (lit := "---- " +:+ sanitizedName rule +:+ " ----") in *.
  set (rest := nl +:+ nl +:+ u_content rule +:+ nl +:+ nl).
  assert ("---- " +:+ sanitizedName rule +:+ " ----" +:+ nl +:+ nl +:+
          u_content rule +:+ nl +:+ nl = lit +:+ rest) as Hsec
    by (unfold lit, rest; by rewrite !string_app_assoc).
  assert (∀ c, c ∈ chars lit → c ≠ "010"%char ∧ c ≠ "$"%char) as Hlit.
  { intros c [->|[->|Hc]]%delimiter_chars; [done..|].
    split; intros ->; discriminate Hc. }
  assert (files (upsertSection filepath header rule d).2 !! filepath =
            Some ((e0 +:+ nl) +:+ lit +:+ rest)) as Hfirst.
  { unfold upsertSection, Fs.writeFile. rewrite Hw. cbn. fold lit.
    rewrite He, Hinc, Hsec. by rewrite lookup_insert_eq. }
  split; [|by rewrite Hfirst, <- Hsec].
  assert (replaceSections lit (lit +:+ rest) 0 "" ((e0 +:+ nl) +:+ lit +:+ rest)
          = (e0 +:+ nl) +:+ lit +:+ rest) as Hrep.
  { rewrite replaceSections_scan.
    2:{ apply no_match_before; [done|]. intros Hin. by destruct (Hlit _ Hin). }
    f_equal.
    assert (Js.includes rest "---- " = false) as Hrest.
    { unfold rest. rewrite !nl_app, !includes_cons.
      replace (u_content rule +:+ String "010"%char (String "010"%char ""))
        with (u_content rule +:+ (nl +:+ nl)) by done.
      rewrite includes_app_false; [done..|].
      intros c Hc. apply list_elem_of_In in Hc. cbn in Hc.
      destruct Hc as [<-|[<-|[]]]; intros Hin;
        apply list_elem_of_In in Hin; cbn in Hin; intuition discriminate. }
    destruct (lit +:+ rest) as [|c s'] eqn:Hs.
    { unfold lit in Hs. discriminate Hs. }
    cbn [replaceSections]. rewrite <- Hs, prefix_app_self, dropChars_app.
    rewrite lazyBody_whole by done.
    rewrite expand_plain.
    2:{ rewrite chars_app, elem_of_app. intros [Hin|Hin].
        - by destruct (Hlit _ Hin).
        - unfold rest in Hin. rewrite !chars_app, !elem_of_app in Hin.
          destruct Hin as [Hin|[Hin|[Hin|[Hin|Hin]]]]; try done;
            apply list_elem_of_In in Hin; cbn in Hin;
            intuition discriminate. }
    rewrite Hs. cbn [String.length]. rewrite Nat.sub_succ, Nat.sub_0_r.
    by rewrite replaceSections_skip_all, string_app_nil_r. }
  unfold upsertSection at 1. fold lit.
  set (once := (upsertSection filepath header rule d).2) in *.
  assert (writeError once = writeError d ∧
          files once = <[filepath := (e0 +:+ nl) +:+ lit +:+ rest]> (files d))
    as [Hwe Hfiles].
  { unfold once, upsertSection, Fs.writeFile. rewrite Hw. cbn. split; [done|].
    f_equal. fold lit. rewrite He, Hinc. by rewrite Hsec. }
  rewrite Hfirst. cbn [default]. unfold id.
  rewrite includes_app_r by (apply includes_prefix, prefix_app_self).
  rewrite Hsec, Hrep. unfold Fs.writeFile. rewrite Hwe, Hw. cbn.
  rewrite Hfiles. by rewrite insert_insert_eq.
Qed.

End Upsert.

(** ** The properties above on sample inputs *)

Lemma parseRuleContent_without_frontmatter_witness :
  let rule := Parsers.parseRuleContent Fixtures.host cline "style"
                Fixtures.globsOnly ".clinerules/style.md" in
  type rule = always ∧ patterns rule = None ∧
  content rule = Js.trim Fixtures.globsOnly.
Proof.
  apply (parseRuleContent_without_frontmatter Fixtures.host cline).
  reflexivity.
Defined.

Lemma parseRuleContent_malformed_frontmatter_witness :
  let rule := Parsers.parseRuleContent Fixtures.host cursor "style"
                Samples.brokenFrontmatter ".cursor/rules/style.mdc" in
  content rule = Js.trim Samples.brokenFrontmatter ∧
  description rule = Some "" ∧ type rule = always ∧ patterns rule = None.
Proof.
  destruct (parseRuleContent_malformed_frontmatter Fixtures.host cursor
              "style" Samples.brokenFrontmatter ".cursor/rules/style.mdc")
    as (Hc & Hd & Ht).
  - reflexivity.
  - vm_compute. reflexivity.
  - split; [exact Hc|]. split; [exact Hd|]. apply Ht. discriminate.
Defined.

Lemma parseRuleContent_qoder_text_override_witness :
  let text := Fixtures.lines ["# Style"; "Applies to: src/**/*.ts"] in
  let rule := Parsers.parseRuleContent Fixtures.host qoder "style" text
                ".qoder/rules/style.md" in
  type rule = specific_files ∧ patterns rule = Some ["src/**"; "*.ts"].
Proof.
  destruct (parseRuleContent_qoder_text_override Fixtures.host "style"
              (Fixtures.lines ["# Style"; "Applies to: src/**/*.ts"])
              ".qoder/rules/style.md") as [Ht Hp].
  - vm_compute. reflexivity.
  - split; [exact Ht|]. apply Hp. vm_compute. reflexivity.
Defined.

Lemma parseRuleContent_windsurf_filesToApplyRule_witness :
  let rule := Parsers.parseRuleContent Samples.windsurfHost windsurf "style"
                Samples.windsurfScoped ".windsurf/rules/style.md" in
  type rule = glob_pattern ∧ patterns rule = Some ["src/**"].
Proof.
  eapply (parseRuleContent_windsurf_filesToApplyRule Samples.windsurfHost
            "style" Samples.windsurfScoped ".windsurf/rules/style.md").
  - vm_compute. reflexivity.
  - reflexivity.
  - discriminate.
Defined.

Lemma qoder_trigger_round_trip_witness :
  let st := Parsers.mkLocals "Use strict types" "" [] always in
  Parsers.ruleType
    (Parsers.qoderTrigger (Converters.mapRuleTypeToQoderTrigger auto_attached)
                          st) = glob_pattern ∧
  qoderReadBack glob_pattern = glob_pattern.
Proof.
  destruct (qoder_trigger_round_trip auto_attached
              (Parsers.mkLocals "Use strict types" "" [] always))
    as (Hread & _).
  destruct (qoder_trigger_round_trip glob_pattern
              (Parsers.mkLocals "Use strict types" "" [] always))
    as (_ & _ & _ & Hfix).
  split; [exact Hread|]. apply Hfix. set_solver.
Defined.

Lemma detectRulesForEditor_rules_wellformed_witness :
  ∃ r, Parsers.detectRulesForEditor Fixtures.host Fixtures.project cursor
         "/proj" = Ok r ∧
       length (rules r) = 1 ∧ Forall (detectedRule cursor) (rules r).
Proof.
  eexists. split; [vm_compute; reflexivity|]. split; [reflexivity|].
  apply (detectRulesForEditor_rules_wellformed Fixtures.host Fixtures.project
           cursor "/proj").
  vm_compute. reflexivity.
Defined.

Lemma detectRulesForEditor_location_witness :
  ∃ r, Parsers.detectRulesForEditor Fixtures.host Fixtures.project cursor
         "/proj" = Ok r ∧
       (rules r = [] ↔ location r = "") ∧
       (location r = "" ∨
        ∃ loc, loc ∈ allLocations cursor ∧
               location r = path_resolve Fixtures.host "/proj" loc ∧
               existsSync Fixtures.project (location r) = true).
Proof.
  eexists. split; [vm_compute; reflexivity|].
  apply (detectRulesForEditor_location Fixtures.host Fixtures.project
           cursor "/proj").
  - intros loc Hloc. apply list_elem_of_In in Hloc. vm_compute in Hloc.
    destruct Hloc as [<-|[<-|[]]]; vm_compute; discriminate.
  - vm_compute. reflexivity.
Defined.

Lemma convertToEditor_per_rule_files_witness :
  ∃ d',
    Converters.convertToEditor Fixtures.host
      [Fixtures.styleRule; Fixtures.testsRule] cursor "." Fixtures.emptyDisk
    = (Ok [".cursor/rules/c---rules.mdc"; ".cursor/rules/tests.mdc"], d') ∧
    writes d' = [".cursor/rules/c---rules.mdc"; ".cursor/rules/tests.mdc"] ∧
    Fs.existsSync d' ".cursor/rules" = true.
Proof.
  eexists. split; [vm_compute; reflexivity|].
  edestruct (convertToEditor_per_rule_files Fixtures.host
               [Fixtures.styleRule; Fixtures.testsRule] cursor "."
               Fixtures.emptyDisk) as (_ & Hw & _ & Hdir).
  - reflexivity.
  - vm_compute. reflexivity.
  - split; [exact Hw|exact Hdir].
Defined.

Lemma convertToEditor_name_collision_witness :
  ∃ d',
    Converters.convertToEditor Fixtures.host
      [Fixtures.styleRule; Samples.sharpRule] cursor "." Fixtures.emptyDisk
    = (Ok [".cursor/rules/c---rules.mdc"; ".cursor/rules/c---rules.mdc"],
       d') ∧
    ∃ p, files d' !! p =
           Some (Converters.convertRuleContent Fixtures.host
                   Samples.sharpRule cursor) ∧
         ∀ q, q ≠ p → files d' !! q = files Fixtures.emptyDisk !! q.
Proof.
  eexists. split; [vm_compute; reflexivity|].
  edestruct (convertToEditor_name_collision Fixtures.host Fixtures.styleRule
               Samples.sharpRule cursor "." Fixtures.emptyDisk)
    as (p & _ & Hp & Hq).
  - reflexivity.
  - vm_compute. reflexivity.
  - vm_compute. reflexivity.
  - exists p. split; [exact Hp|exact Hq].
Defined.

Lemma convertToEditor_failure_witness :
  ∃ m d',
    Converters.convertToEditor Fixtures.host
      [Fixtures.testsRule; Fixtures.styleRule] cursor "."
      Fixtures.lockedCursorDisk = (Throw m, d') ∧
    ∃ done rule rest m0,
      [Fixtures.testsRule; Fixtures.styleRule] = done ++ rule :: rest ∧
      writeError Fixtures.lockedCursorDisk
        (rulePath Fixtures.host cursor ".cursor/rules" rule) = Some m0 ∧
      m = "Failed to convert rule " +:+ name rule +:+ ": " +:+ showError m0.
Proof.
  eexists _, _. split; [vm_compute; reflexivity|].
  edestruct (convertToEditor_failure Fixtures.host
               [Fixtures.testsRule; Fixtures.styleRule] cursor "."
               Fixtures.lockedCursorDisk)
    as [(_ & Hmk & _)|(done & rule & rest & m0 & H1 & H2 & H3 & _)].
  - reflexivity.
  - vm_compute. reflexivity.
  - discriminate Hmk.
  - exists done, rule, rest, m0. split; [exact H1|]. split; [exact H2|exact H3].
Defined.

Lemma convertRules_only_adds_witness :
  let run := Converters.convertRules Fixtures.host
               [Fixtures.styleRule; Fixtures.testsRule]
               ["Cursor"; "Codex CLI"] "." Fixtures.emptyDisk in
  ∃ new,
    writes run.2 = writes Fixtures.emptyDisk ++ new ∧
    dirs Fixtures.emptyDisk ⊆ dirs run.2 ∧
    (∀ p, is_Some (files Fixtures.emptyDisk !! p) →
          is_Some (files run.2 !! p)) ∧
    (∀ p, p ∉ new → files run.2 !! p = files Fixtures.emptyDisk !! p) ∧
    (∀ f, f ∈ outputFiles run.1 → f ∈ new ∧ is_Some (files run.2 !! f)).
Proof.
  apply (convertRules_only_adds Fixtures.host
           [Fixtures.styleRule; Fixtures.testsRule] ["Cursor"; "Codex CLI"]
           "." Fixtures.emptyDisk).
  apply surjective_pairing.
Defined.

Lemma convertRules_all_unknown_witness :
  Converters.convertRules Fixtures.host [Fixtures.styleRule]
    ["Emacs"; "cursor"] "." Fixtures.emptyDisk =
  (mkConversionResult true 0 0
     ["Unknown editor: Emacs"; "Unknown editor: cursor"] [],
   Fixtures.emptyDisk).
Proof.
  apply (convertRules_all_unknown Fixtures.host [Fixtures.styleRule]
           ["Emacs"; "cursor"] "." Fixtures.emptyDisk).
  intros t Ht. apply list_elem_of_In in Ht. vm_compute in Ht.
  destruct Ht as [<-|[<-|[]]]; vm_compute; reflexivity.
Defined.

Lemma getEditorByDisplayName_sound_witness :
  "OpenCode" ∈ getDisplayNamesForEditor codex ∧
  ∀ e, "Emacs" ∉ getDisplayNamesForEditor e.
Proof.
  split.
  - apply (proj1 (getEditorByDisplayName_sound "OpenCode") codex).
    vm_compute. reflexivity.
  - apply (proj2 (getEditorByDisplayName_sound "Emacs")).
    vm_compute. reflexivity.
Defined.

Lemma targetChoices_exclude_source_witness :
  "Codex CLI" ∈ Commands.targetChoices cursor ∧
  ∃ e, e ≠ cursor ∧ getEditorByDisplayName "Codex CLI" = Some e.
Proof.
  assert ("Codex CLI" ∈ Commands.targetChoices cursor) as Hin.
  { apply (proj1 (targetChoices_exclude_source cursor "Codex CLI")).
    exists codex. split; [discriminate|]. vm_compute. set_solver. }
  split; [exact Hin|].
  apply (proj2 (targetChoices_exclude_source cursor "Codex CLI")), Hin.
Defined.

Lemma groupEditorsByType_spec_witness :
  Commands.mkEditorGroup codex ["OpenCode"; "Codex CLI"] ∈
    Commands.groupEditorsByType ["OpenCode"; "Cursor"; "Codex CLI"].
Proof.
  apply (proj2 (groupEditorsByType_spec
                  ["OpenCode"; "Cursor"; "Codex CLI"])).
  split; [discriminate|]. vm_compute. reflexivity.
Defined.

Lemma getEditorLabelParts_aliases_witness :
  let g := Commands.mkEditorGroup codex ["OpenCode"; "Codex CLI"] in
  (Commands.getEditorLabelParts g).1 = displayName (EDITOR_CONFIGS codex) ∧
  ("OpenCode" ∈ (Commands.getEditorLabelParts g).2 →
   "OpenCode" ∈ ["OpenCode"; "Cursor"; "Codex CLI"] ∧
   "OpenCode" ∈
     default [] (aliasDisplayNames (EDITOR_CONFIGS codex))).
Proof.
  apply (getEditorLabelParts_aliases ["OpenCode"; "Cursor"; "Codex CLI"]).
  vm_compute. set_solver.
Defined.


Lemma convertUniversalRule_heading_witness :
  let run := Universal.convertUniversalRule Fixtures.host Fixtures.cppRule
               cline Fixtures.emptyDisk in
  ∃ p text,
    run.1 = Ok [p] ∧ files run.2 !! p = Some text ∧
    text = "# C++ Rules" +:+ nl +:+ nl +:+ "Prefer small functions".
Proof.
  cbv zeta.
  destruct (convertUniversalRule_heading Fixtures.host Fixtures.cppRule
              cline Fixtures.emptyDisk
              (Universal.convertUniversalRule Fixtures.host Fixtures.cppRule
                 cline Fixtures.emptyDisk).2 [".clinerules/c-rules.md"])
    as (p & text & Hw & Hfile & _ & Htext).
  - set_solver.
  - apply injective_projections; [vm_compute; reflexivity|reflexivity].
  - exists p, text. injection Hw as <-.
    split; [vm_compute; reflexivity|]. split; [exact Hfile|exact Htext].
Defined.

Lemma convertToClaudeCode_additive_witness :
  let once := (Universal.convertToClaudeCode Fixtures.cppRule
                 Fixtures.emptyDisk).2 in
  let twice := (Universal.convertToClaudeCode Fixtures.cppRule once).2 in
  ∃ text,
    files once !! "CLAUDE.md" = Some text ∧
    files twice !! "CLAUDE.md" =
      Some (text +:+ nl +:+ "## C++ Rules" +:+ nl +:+ nl +:+
            "Prefer small functions" +:+ nl).
Proof.
  apply (convertToClaudeCode_additive Fixtures.cppRule Fixtures.emptyDisk).
  reflexivity.
Defined.

Lemma upsertSection_appends_witness :
  let run := Universal.upsertSection "AGENTS.md"
               ("# Project Agent Rules" +:+ nl +:+ nl) Fixtures.cppRule
               Fixtures.emptyDisk in
  run.1 = Ok ["AGENTS.md"] ∧
  files run.2 !! "AGENTS.md" =
    Some (("# Project Agent Rules" +:+ nl +:+ nl) +:+
          "---- c-rules ----" +:+ nl +:+ nl +:+
          "Prefer small functions" +:+ nl +:+ nl).
Proof.
  apply (upsertSection_appends "AGENTS.md"
           ("# Project Agent Rules" +:+ nl +:+ nl) Fixtures.cppRule
           Fixtures.emptyDisk).
  - reflexivity.
  - vm_compute. reflexivity.
Defined.

Lemma shared_file_round_trip_witness :
  Parsers.parseSingleFileWithSections Fixtures.host Samples.convertedProject
    codex "/proj/AGENTS.md" =
  Ok (reparsed codex "/proj/AGENTS.md" <$>
        [Fixtures.styleRule; Fixtures.testsRule]).
Proof.
  apply (shared_file_round_trip Fixtures.host Samples.convertedProject codex
           "/proj/AGENTS.md" [Fixtures.styleRule; Fixtures.testsRule]).
  - set_solver.
  - repeat constructor; try discriminate; vm_compute; reflexivity.
  - reflexivity.
Defined.

Lemma upsertSection_idempotent_witness :
  let header := "# Project Agent Rules" +:+ nl +:+ nl in
  let once := (Universal.upsertSection "AGENTS.md" header Fixtures.cppRule
                 Fixtures.emptyDisk).2 in
  let twice := (Universal.upsertSection "AGENTS.md" header Fixtures.cppRule
                  once).2 in
  files twice = files once ∧
  files once !! "AGENTS.md" =
    Some ((("# Project Agent Rules" +:+ nl) +:+ nl) +:+
          "---- c-rules ----" +:+ nl +:+ nl +:+
          "Prefer small functions" +:+ nl +:+ nl).
Proof.
  apply (upsertSection_idempotent "AGENTS.md"
           ("# Project Agent Rules" +:+ nl +:+ nl) Fixtures.cppRule
           Fixtures.emptyDisk ("# Project Agent Rules" +:+ nl)).
  - reflexivity.
  - reflexivity.
  - vm_compute. reflexivity.
  - vm_compute. reflexivity.
  - intros Hin. apply list_elem_of_In in Hin. vm_compute in Hin.
    intuition discriminate.
Defined.
